(** * InnerMatch: the feedback ranker of [innermatch/ranker.py]

    A shallow embedding of [FeedbackRanker] (its constructor, [_login],
    [_get_model_path], [load_model], [save_model], [rank], [feedback]) and of
    the two module-level functions, followed by the properties of ranking,
    of the weight update, of the error paths and of the storage layout.

    Modelling conventions.
    - A number is what numpy holds: an int64, whose arithmetic wraps modulo
      2^64, or a float64, whose arithmetic is IEEE 754 binary64 (Rocq's
      primitive floats).  Python's [int] and [float] operands enter as int64
      and float64.  Other dtypes are outside the model: an [I64 z] stands for
      an int64 when [z] is within the int64 range, and the theorems about
      computed values assume that of their inputs ([np.numeric],
      [np.is_ndarray]).
    - A 1-D array is a list of numbers; numpy gives a sequence one dtype
      ([np.asarray]): int64 when every item is an integer, float64 otherwise.
      A 2-D array carries its column count next to its rows, so that a shape
      with zero rows keeps its width.
    - [np.outer], [*], [+] with broadcasting and [os.path.join] follow the
      documented behaviour of numpy and of posixpath.  The order in which
      [np.dot] accumulates float64 products belongs to the BLAS numpy is
      linked with, and [np.argsort]'s default kind promises no order among
      equal keys: both enter as parameters.  On int64 arrays [np.dot] is
      exact modulo 2^64.
    - The disk is a finite map from paths to pickled arrays.  Whether
      [open(path, "wb")] succeeds (the parent directory exists and may be
      written) is the file system's answer, a parameter.  The constructor is
      modelled where [os.makedirs] succeeds.  A log of the gate and
      file-system calls is threaded along as ghost state, so that the order
      of those calls can be stated.
    - A Python exception leaves the state as it was when it was raised. *)

From Stdlib Require Import ZArith QArith Qcanon Ascii String Floats.
From stdpp Require Import gmap strings list fin_maps sorting.

(** ** Exceptions and the result type *)

Inductive exn : Type :=
  | Exception (msg : string)   (* raise Exception("...") in ranker.py *)
  | IndexError                 (* seq[i] with i out of range *)
  | ValueError                 (* numpy: shapes not aligned / not broadcastable *)
  | TypeError                  (* numpy applied to None *)
  | OSError.                   (* open() refused by the file system *)

Inductive result (A : Type) : Type :=
  | Ok (a : A)
  | Err (e : exn).
Arguments Ok {A} a.
Arguments Err {A} e.

#[global] Instance result_ret : MRet result := fun _ a => Ok a.
#[global] Instance result_bind : MBind result := fun _ _ f r =>
  match r with
  | Ok a => f a
  | Err e => Err e
  end.

Definition sizes_msg : string := "Error: Vector sizes do not match.".
Definition login_msg : string := "Login failed: Unauthorized (check credentials)".
Definition nomodel_msg : string := "No model to save. Run rank() or feedback() first.".

(** [seq[i]] on a Python sequence. *)
Definition index {A : Type} (l : list A) (i : nat) : result A :=
  match l !! i with
  | Some a => Ok a
  | None => Err IndexError
  end.

(** A list comprehension whose element expression may raise: the first
    exception, in iteration order, is the outcome. *)
Fixpoint comprehension {A B : Type} (f : A → result B) (l : list A) : result (list B) :=
  match l with
  | [] => Ok []
  | a :: l' => b ← f a; bs ← comprehension f l'; Ok (b :: bs)
  end.

(** ** numpy *)

Module np.

(** An item of an array, or a scalar operand. *)
Inductive number : Type :=
  | I64 (z : Z)       (* int64; also a Python int *)
  | F64 (f : float).  (* float64; also a Python float *)

(** The int64 that an integer result wraps to. *)
Definition wrap (z : Z) : Z := ((z + 2 ^ 63) mod 2 ^ 64 - 2 ^ 63)%Z.

(** int64 to float64: the nearest float, ties to even. *)
Definition float_of_int (z : Z) : float :=
  SF2Prim (binary_normalize prec emax z 0 false).

Definition to_float (x : number) : float :=
  match x with
  | I64 z => float_of_int z
  | F64 f => f
  end.

(** [x + y] and [x * y]: int64 when both operands are, float64 otherwise. *)
Definition num_add (x y : number) : number :=
  match x, y with
  | I64 a, I64 b => I64 (wrap (a + b))
  | _, _ => F64 (to_float x + to_float y)
  end.

Definition num_mul (x y : number) : number :=
  match x, y with
  | I64 a, I64 b => I64 (wrap (a * b))
  | _, _ => F64 (to_float x * to_float y)
  end.

(** A 1-D array, or the sequence of numbers it is made from. *)
Abbreviation vector := (list number).

Definition is_int (x : number) : bool :=
  match x with
  | I64 _ => true
  | F64 _ => false
  end.

(** Whether a sequence becomes an int64 array; an empty one is float64. *)
Definition int_dtype (a : vector) : bool :=
  match a with
  | [] => false
  | _ => forallb is_int a
  end.

(** [np.asarray(a)]: one dtype for all items. *)
Definition asarray (a : vector) : vector :=
  if int_dtype a then a else map (λ x, F64 (to_float x)) a.

(** An item numpy can hold: an integer within the range of int64, or any
    float64. *)
Definition in_range (x : number) : bool :=
  match x with
  | I64 z => (- 2 ^ 63 <=? z)%Z && (z <? 2 ^ 63)%Z
  | F64 _ => true
  end.

(** A sequence numpy makes an int64 or a float64 array of: every integer in
    it fits int64.  (For a larger Python integer numpy picks uint64 or
    object, dtypes the model does not cover.) *)
Definition numeric (a : vector) : bool := forallb in_range a.

Record ndarray : Type := mk_ndarray { ncols : nat; rows : list vector }.

Definition nrows (M : ndarray) : nat := length (rows M).
Definition shape (M : ndarray) : nat * nat := (nrows M, ncols M).

(** Every row has the width the shape announces. *)
Definition wf (M : ndarray) : Prop := Forall (λ r, length r = ncols M) (rows M).

Definition item (M : ndarray) (i j : nat) : number := nth j (nth i (rows M) []) (I64 0).

Definition tabulate (r c : nat) (f : nat → nat → number) : ndarray :=
  mk_ndarray c (map (λ i, map (λ j, f i j) (seq 0 c)) (seq 0 r)).

Definition zeros (r c : nat) : ndarray := tabulate r c (λ _ _, F64 0).
Definition eye (r c : nat) : ndarray :=
  tabulate r c (λ i j, if decide (i = j) then F64 1 else F64 0).

(** Broadcasting of one axis: equal lengths, or one of them is 1. *)
Definition bdim (a b : nat) : option nat :=
  if decide (a = b) then Some a
  else if decide (a = 1) then Some b
  else if decide (b = 1) then Some a
  else None.

(** Index into an axis that is stretched when its length is 1. *)
Definition bidx (n i : nat) : nat := if decide (n = 1) then 0 else i.

Definition bitem (M : ndarray) (i j : nat) : number :=
  item M (bidx (nrows M) i) (bidx (ncols M) j).

(** [A + B] on 2-D arrays. *)
Definition add (A B : ndarray) : result ndarray :=
  match bdim (nrows A) (nrows B), bdim (ncols A) (ncols B) with
  | Some r, Some c => Ok (tabulate r c (λ i j, num_add (bitem A i j) (bitem B i j)))
  | _, _ => Err ValueError
  end.

Definition map_items (f : number → number) (M : ndarray) : ndarray :=
  mk_ndarray (ncols M) (map (map f) (rows M)).

(** [s * M] for a scalar [s]. *)
Definition scale (s : number) (M : ndarray) : ndarray := map_items (num_mul s) M.

(** [np.outer(a, b)]: entry (j, k) is [a[j] * b[k]]. *)
Definition outer (a b : vector) : ndarray :=
  mk_ndarray (length b) (map (λ x, map (λ y, num_mul x y) (asarray b)) (asarray a)).

(** Whether a 2-D array is int64. *)
Definition int_matrix (M : ndarray) : bool := int_dtype (concat (rows M)).

(** A 2-D array as numpy holds it: one dtype, int64 or float64, for all its
    items, and every int64 item in range. *)
Definition is_ndarray (M : ndarray) : bool :=
  forallb numeric (rows M) &&
  (forallb (forallb is_int) (rows M) ||
   forallb (forallb (λ x, negb (is_int x))) (rows M)).

Definition int_of (x : number) : Z :=
  match x with
  | I64 z => z
  | F64 _ => 0%Z
  end.

(** Sum of products of two int64 arrays. *)
Fixpoint int_inner (a b : vector) : Z :=
  match a, b with
  | x :: a', y :: b' => (int_of x * int_of y + int_inner a' b')%Z
  | _, _ => 0%Z
  end.

(** The float64 routines of the BLAS numpy is linked with: the sum of
    products of two vectors, and item [i] of a matrix-vector product.  The
    order in which they accumulate is theirs. *)
Record blas : Type := mk_blas {
  ddot : list float → list float → float;
  dgemv : list (list float) → list float → nat → float
}.

Section Dot.

Variable B : blas.

(** The sum of products of two 1-D arrays: int64 when both are. *)
Definition vdot (a b : vector) : number :=
  if int_dtype a && int_dtype b then I64 (wrap (int_inner a b))
  else F64 (ddot B (map to_float a) (map to_float b)).

(** The product of a 2-D and a 1-D array: int64 when both are. *)
Definition matvec (M : ndarray) (v : vector) : vector :=
  map (λ i, if int_matrix M && int_dtype v
            then I64 (wrap (int_inner (nth i (rows M) []) v))
            else F64 (dgemv B (map (map to_float) (rows M)) (map to_float v) i))
      (seq 0 (nrows M)).

(** [np.dot(a, b)] for 1-D [a] and 1-D [b]. *)
Definition dot11 (a b : vector) : result number :=
  if decide (length a = length b) then Ok (vdot a b) else Err ValueError.

(** [np.dot(M, v)] for 2-D [M] and 1-D [v]. *)
Definition dot21 (M : ndarray) (v : vector) : result vector :=
  if decide (ncols M = length v) then Ok (matvec M v) else Err ValueError.

End Dot.

(** What Python's [sum] and [*] and [+] see: a scalar (the integer start value
    0, or its product with the learning rate) or an array. *)
Inductive pyval : Type :=
  | PyNum (x : number)
  | PyArr (M : ndarray).

(** [a + B] where [a] is the running total of [sum] and [B] an array. *)
Definition py_add_arr (a : pyval) (B : ndarray) : result ndarray :=
  match a with
  | PyNum x => Ok (map_items (num_add x) B)
  | PyArr A => add A B
  end.

(** [A + b] where [A] is an array. *)
Definition arr_add_py (A : ndarray) (b : pyval) : result ndarray :=
  match b with
  | PyNum y => Ok (map_items (λ x, num_add x y) A)
  | PyArr B => add A B
  end.

(** [s * a] for a scalar [s]. *)
Definition py_scale (s : number) (a : pyval) : pyval :=
  match a with
  | PyNum x => PyNum (num_mul s x)
  | PyArr M => PyArr (scale s M)
  end.

(** [sum(gen)]: start at 0, add each item as the generator yields it. *)
Fixpoint py_sum_from (acc : pyval) (gen : list (result ndarray)) : result pyval :=
  match gen with
  | [] => Ok acc
  | it :: gen' => M ← it; acc' ← py_add_arr acc M; py_sum_from (PyArr acc') gen'
  end.

Definition py_sum (gen : list (result ndarray)) : result pyval :=
  py_sum_from (PyNum (I64 0)) gen.

(** The order numpy sorts float64 by: [a < b], with NaN after everything
    else. *)
Definition less (a b : float) : bool :=
  PrimFloat.ltb a b || (PrimFloat.is_nan b && negb (PrimFloat.is_nan a)).

(** The contract of [np.argsort] with its default [kind] (quicksort): the
    indices that sort the array, ascending.  Nothing is promised about the
    order of equal elements; that takes [kind='stable']. *)
Definition argsort_spec (argsort : list float → list nat) : Prop :=
  ∀ es, argsort es ≡ₚ seq 0 (length es) ∧
        StronglySorted (λ i j, less (nth j es 0%float) (nth i es 0%float) = false)
                       (argsort es).

End np.

(** ** os.path *)

Module os_path.

Definition sep : string := "/".

Fixpoint endswith_sep (s : string) : bool :=
  match s with
  | EmptyString => false
  | String c EmptyString => bool_decide (c = "/"%char)
  | String _ s' => endswith_sep s'
  end.

(** [posixpath.join(a, b)]. *)
Definition join (a b : string) : string :=
  if String.prefix sep b then b
  else if bool_decide (a = EmptyString) || endswith_sep a then a +:+ b
  else a +:+ sep +:+ b.

Fixpoint drop_while (p : ascii → bool) (l : list ascii) : list ascii :=
  match l with
  | [] => []
  | c :: l' => if p c then drop_while p l' else l
  end.

Definition is_sep (c : ascii) : bool := bool_decide (c = "/"%char).

(** [posixpath.dirname(p)]: [p] up to its last separator; the separators
    that end this head are dropped unless it consists of separators only. *)
Definition dirname (p : string) : string :=
  let head := drop_while (λ c, negb (is_sep c)) (rev (list_ascii_of_string p)) in
  let stripped := drop_while is_sep head in
  string_of_list_ascii (rev (match stripped with [] => head | _ => stripped end)).

End os_path.

(** ** The ranker object, the disk and the monad of methods *)

Record FeedbackRanker : Type := mk_ranker {
  user_id : string;
  password : string;
  session_id : string;
  model_location : string;
  dimension : option nat;
  W : option np.ndarray
}.

(** Calls that leave the process: the authentication gate, with its answer,
    and the file system.  The log lists them oldest first. *)
Inductive event : Type :=
  | Login (granted : bool)
  | Makedirs (path : string)
  | Exists (path : string)
  | Read (path : string)
  | Write (path : string)
  | WriteFailed (path : string).

Record state : Type := mk_state {
  self : FeedbackRanker;
  disk : gmap string np.ndarray;
  log : list event
}.

Definition M (A : Type) : Type := state → result A * state.

#[global] Instance M_ret : MRet M := fun _ a s => (Ok a, s).
#[global] Instance M_bind : MBind M := fun _ _ f m s =>
  match m s with
  | (Ok a, s') => f a s'
  | (Err e, s') => (Err e, s')
  end.

Definition raise {A : Type} (e : exn) : M A := fun s => (Err e, s).
Definition lift {A : Type} (r : result A) : M A := fun s => (r, s).
Definition get_self : M FeedbackRanker := fun s => (Ok (self s), s).
Definition put_self (r : FeedbackRanker) : M unit :=
  fun s => (Ok tt, mk_state r (disk s) (log s)).
Definition emit (e : event) : M unit :=
  fun s => (Ok tt, mk_state (self s) (disk s) (log s ++ [e])).
Definition get_disk : M (gmap string np.ndarray) := fun s => (Ok (disk s), s).
Definition put_disk (d : gmap string np.ndarray) : M unit :=
  fun s => (Ok tt, mk_state (self s) d (log s)).

Definition set_dimension (d : nat) : M unit :=
  r ← get_self;
  put_self (mk_ranker (user_id r) (password r) (session_id r) (model_location r)
              (Some d) (W r)).

Definition set_W (w : np.ndarray) : M unit :=
  r ← get_self;
  put_self (mk_ranker (user_id r) (password r) (session_id r) (model_location r)
              (dimension r) (Some w)).

(** [self.W] where an array is needed. *)
Definition get_W : M np.ndarray :=
  r ← get_self;
  match W r with
  | Some w => mret w
  | None => raise TypeError
  end.

(** [os.path.exists(path)]. *)
Definition path_exists (path : string) : M bool :=
  emit (Exists path);;
  d ← get_disk;
  mret (bool_decide (is_Some (d !! path))).

(** [pickle.load] of the file at [path]. *)
Definition pickle_load (path : string) : M np.ndarray :=
  emit (Read path);;
  d ← get_disk;
  match d !! path with
  | Some w => mret w
  | None => raise OSError
  end.

(** [FeedbackRanker.__init__], for a [model_location] that
    [os.makedirs(model_location, exist_ok=True)] accepts.  For the empty path,
    or a directory that cannot be created, [os.makedirs] raises and no ranker
    is built: those calls have no state to speak of and are not modelled. *)
Definition __init__ (user_id password session_id model_location : string)
    (dimension : option nat) (d : gmap string np.ndarray) (l : list event) : state :=
  mk_state (mk_ranker user_id password session_id model_location dimension None)
           d (l ++ [Makedirs model_location]).

(** [FeedbackRanker._login] as the source has it. *)
Definition _login (r : FeedbackRanker) : bool := true.

(** [FeedbackRanker._get_model_path]. *)
Definition _get_model_path (r : FeedbackRanker) : string :=
  os_path.join (model_location r) (user_id r +:+ "_" +:+ session_id r).

Section Methods.

(** The gate the methods call as [self._login()].  The class's own is
    [_login]; a subclass may supply another. *)
Variable gate : FeedbackRanker → bool.

(** The file system's answer to [open(path, "wb")]. *)
Variable writable : string → bool.

(** The BLAS behind [np.dot]; see [np.blas]. *)
Variable blas : np.blas.

(** [np.argsort] as installed; see [np.argsort_spec]. *)
Variable argsort : list float → list nat.

Definition call_login : M bool :=
  r ← get_self;
  let ok := gate r in
  emit (Login ok);;
  mret ok.

(** [with open(path, "wb") as file: pickle.dump(w, file)]. *)
Definition pickle_dump (w : np.ndarray) (path : string) : M unit :=
  if writable path then
    emit (Write path);;
    d ← get_disk;
    put_disk (<[path := w]> d)
  else
    emit (WriteFailed path);;
    raise OSError.

Definition load_model (dimension : nat) : M np.ndarray :=
  ok ← call_login;
  if negb ok then raise (Exception login_msg) else
  set_dimension dimension;;
  r ← get_self;
  let filename := _get_model_path r in
  present ← path_exists filename;
  (if negb present then
     w ← lift (np.add (np.zeros dimension dimension) (np.eye dimension dimension));
     set_W w
   else
     w ← pickle_load filename;
     set_W w);;
  get_W.

Definition save_model : M unit :=
  ok ← call_login;
  if negb ok then raise (Exception login_msg) else
  r ← get_self;
  match W r with
  | None => raise (Exception nomodel_msg)
  | Some w =>
      let filename := _get_model_path r in
      pickle_dump w filename
  end.

(** [-0.5 * np.dot(query_vector, np.dot(self.W, target))]: a float64. *)
Definition energy (w : np.ndarray) (query target : np.vector) : result float :=
  v ← np.dot21 blas w target;
  d ← np.dot11 blas query v;
  Ok (-0.5 * np.to_float d)%float.

Definition rank (target_vector_array : list np.vector) (query_vector : np.vector)
    : M (list nat) :=
  t0 ← lift (index target_vector_array 0);
  if decide (length query_vector ≠ length t0) then raise (Exception sizes_msg) else
  r ← get_self;
  (if W r is None then load_model (length query_vector);; mret tt else mret tt);;
  w ← get_W;
  energies ← lift (comprehension
                     (λ i, t ← index target_vector_array i; energy w query_vector t)
                     (seq 0 (length target_vector_array)));
  let ranks := argsort energies in
  mret ranks.

(** The generator [feedback] hands to [sum]:
    [feedback_array[i] * np.outer(target_vector_array[i], query_vector_array[i])]
    for [i] in [range(len(feedback_array))]. *)
Definition outer_products (target_vector_array query_vector_array : list np.vector)
    (feedback_array : list np.number) : list (result np.ndarray) :=
  map (λ i, l ← index feedback_array i;
            t ← index target_vector_array i;
            q ← index query_vector_array i;
            Ok (np.scale l (np.outer t q)))
      (seq 0 (length feedback_array)).

Definition feedback (target_vector_array query_vector_array : list np.vector)
    (feedback_array : list np.number) (rank_array : option (list nat))
    (learning_rate : np.number) : M unit :=
  if decide (length target_vector_array = 0 ∨ length query_vector_array = 0)
  then mret tt else
  q0 ← lift (index query_vector_array 0);
  t0 ← lift (index target_vector_array 0);
  if decide (length q0 ≠ length t0) then raise (Exception sizes_msg) else
  r ← get_self;
  (if W r is None then load_model (length q0);; mret tt else mret tt);;
  total ← lift (np.py_sum
                  (outer_products target_vector_array query_vector_array
                                  feedback_array));
  let update := np.py_scale learning_rate total in
  w ← get_W;
  w' ← lift (np.arr_add_py w update);
  set_W w';;
  save_model.

End Methods.

(** The module-level functions: a fresh ranker per call.  [feedback] does not
    pass a learning rate on, so the method's default 1.0 applies. *)
Module api.

Definition rank (blas : np.blas)
    (argsort : list float → list nat)
    (user_id password session_id : string)
    (target_vector_array : list np.vector) (query_vector : np.vector)
    (model_location : string) (d : gmap string np.ndarray) (l : list event)
    : result (list nat) * state :=
  let ranker := __init__ user_id password session_id model_location None d l in
  rank _login blas argsort target_vector_array query_vector ranker.

Definition feedback (writable : string → bool) (user_id password session_id : string)
    (target_vector_array query_vector_array : list np.vector)
    (feedback_array : list np.number) (rank_array : option (list nat))
    (model_location : string) (d : gmap string np.ndarray) (l : list event)
    : result unit * state :=
  let ranker := __init__ user_id password session_id model_location None d l in
  feedback _login writable target_vector_array query_vector_array feedback_array
           rank_array (np.F64 1) ranker.

End api.

(** ** Notions the properties are stated with *)

(** The matrix persisted for the ranker's key, if any. *)
Definition stored (s : state) : option np.ndarray :=
  disk s !! _get_model_path (self s).

(** The weight matrix an operation works with: the cached one, else the
    persisted one, else the identity of the requested dimension. *)
Definition resolve (s : state) (dimension : nat) : np.ndarray :=
  match W (self s) with
  | Some w => w
  | None =>
      match stored s with
      | Some w => w
      | None => np.eye dimension dimension
      end
  end.

(** The calls a lazy load makes: none when the matrix is cached. *)
Definition load_events (s : state) : list event :=
  match W (self s) with
  | Some _ => []
  | None =>
      Login true :: Exists (_get_model_path (self s)) ::
      match stored s with
      | Some _ => [Read (_get_model_path (self s))]
      | None => []
      end
  end.

(** The state once the matrix is in memory. *)
Definition after_resolve (s : state) (dimension : nat) : state :=
  match W (self s) with
  | Some _ => s
  | None =>
      mk_state (mk_ranker (user_id (self s)) (password (self s)) (session_id (self s))
                  (model_location (self s)) (Some dimension)
                  (Some (resolve s dimension)))
               (disk s) (log s ++ load_events s)
  end.

(** The ranker with a new weight matrix. *)
Definition with_W (r : FeedbackRanker) (w : np.ndarray) : FeedbackRanker :=
  mk_ranker (user_id r) (password r) (session_id r) (model_location r)
            (dimension r) (Some w).

(** The state once [w] has been stored in memory and written to disk. *)
Definition persisted (s : state) (w : np.ndarray) : state :=
  mk_state (with_W (self s) w)
           (<[_get_model_path (self s) := w]> (disk s))
           (log s ++ [Login true; Write (_get_model_path (self s))]).

(** The state after a refused save: the new matrix is in memory only. *)
Definition unsaved (s : state) (w : np.ndarray) : state :=
  mk_state (with_W (self s) w) (disk s) (log s ++ [Login false]).

(** The state after a save whose [open] failed: in memory only, too. *)
Definition unwritten (s : state) (w : np.ndarray) : state :=
  mk_state (with_W (self s) w) (disk s)
           (log s ++ [Login true; WriteFailed (_get_model_path (self s))]).

(** The energy [rank] computes for a candidate: the float64
    [-0.5 * np.dot(query, np.dot(W, c))]. *)
Definition computed_energy (blas : np.blas)
    (w : np.ndarray) (query c : np.vector) : float :=
  (-0.5 * np.to_float (np.vdot blas query (np.matvec blas w c)))%float.

(** The computed energy of candidate [i]. *)
Definition energy_of (blas : np.blas)
    (w : np.ndarray) (query : np.vector) (candidates : list np.vector)
    (i : nat) : float :=
  computed_energy blas w query (nth i candidates []).

(** Position of an index in a ranking. *)
Fixpoint position (i : nat) (ranks : list nat) : option nat :=
  match ranks with
  | [] => None
  | j :: ranks' => if decide (i = j) then Some 0 else S <$> position i ranks'
  end.

(** Two energies that neither sorts before the other. *)
Definition tied (x y : float) : Prop := np.less x y = false ∧ np.less y x = false.

(** A ranking keeps tied candidates in input order: of two indices with
    tied energies, the smaller comes first. *)
Definition stable (e : nat → float) (ranks : list nat) : Prop :=
  ∀ i j pi pj, i < j → tied (e i) (e j) →
    position i ranks = Some pi → position j ranks = Some pj → pi < pj.

(** Entry (j, k) of [sum(labels[i] * outer(candidates[i], queries[i]))] as
    numpy computes it: from the integer 0, left to right, each sum and product
    in the dtype of its operands. *)
Definition hebbian_sum (candidates queries : list np.vector) (labels : list np.number)
    (j k : nat) : np.number :=
  fold_left
    (λ acc i,
       np.num_add acc
         (np.num_mul (nth i labels (np.I64 0))
            (np.num_mul (nth j (np.asarray (nth i candidates [])) (np.I64 0))
                        (nth k (np.asarray (nth i queries [])) (np.I64 0)))))
    (seq 0 (length labels)) (np.I64 0).

(** A float64 zero, of either sign. *)
Definition float_zero (f : float) : Prop := ∃ s, Prim2SF f = S754_zero s.

(** A float64 that is neither an infinity nor NaN. *)
Definition float_finite (f : float) : Prop :=
  match Prim2SF f with
  | S754_zero _ | S754_finite _ _ _ => True
  | _ => False
  end.

(** The number 0: the integer 0, or a float64 zero. *)
Definition zero_number (x : np.number) : Prop :=
  match x with
  | np.I64 z => z = 0%Z
  | np.F64 f => float_zero f
  end.

(** Two float64 items that are the same number: identical, or two zeros. *)
Definition same_number (x y : np.number) : Prop :=
  ∃ a b, x = np.F64 a ∧ y = np.F64 b ∧ (a = b ∨ (float_zero a ∧ float_zero b)).

(** Every item is a float64. *)
Definition float_matrix (w : np.ndarray) : Prop :=
  Forall (Forall (λ x, np.is_int x = false)) (np.rows w).

(** *** The reading over the real numbers

    The number a value denotes, for an integer or a finite float64. *)
Definition value (x : np.number) : Qc :=
  match x with
  | np.I64 z => Q2Qc (inject_Z z)
  | np.F64 f =>
      match Prim2SF f with
      | S754_finite s m e => Q2Qc (inject_Z (cond_Zopp s (Zpos m)) * 2 ^ e)
      | _ => 0%Qc
      end
  end.

Definition Qc_sum (l : list Qc) : Qc := foldr Qcplus 0%Qc l.

(** The bilinear energy [-0.5 * query^T . W . c] over the real numbers:
    minus one half of the sum over j of [query[j]] times the sum over k of
    [W[j][k] * c[k]]. *)
Definition bilinear_energy (w : np.ndarray) (query c : np.vector) : Qc :=
  (Q2Qc (-1 # 2) *
   Qc_sum (map (λ j, value (nth j query (np.I64 0)) *
                     Qc_sum (map (λ k, value (np.item w j k) * value (nth k c (np.I64 0)))
                                 (seq 0 (length c))))
               (seq 0 (length query))))%Qc.

(** Entry (j, k) of [W + lr * sum_i labels[i] * outer(candidates[i], queries[i])]
    over the real numbers. *)
Definition hebbian_update (w : np.ndarray) (lr : np.number)
    (candidates queries : list np.vector) (labels : list np.number) (j k : nat) : Qc :=
  (value (np.item w j k) +
   value lr *
   Qc_sum (map (λ i, value (nth i labels (np.I64 0)) *
                     (value (nth j (nth i candidates []) (np.I64 0)) *
                      value (nth k (nth i queries []) (np.I64 0))))
               (seq 0 (length labels))))%Qc.

(** *** Traces of gate and file calls *)

(** What a lazy load can add to the log: nothing (the matrix is cached, or
    the call ended earlier), a refused gate call, or a granted gate call
    followed by the existence test and, when the file is there, its read. *)
Inductive load_trace (path : string) : list event → Prop :=
  | load_none : load_trace path []
  | load_refused : load_trace path [Login false]
  | load_fresh : load_trace path [Login true; Exists path]
  | load_read : load_trace path [Login true; Exists path; Read path].

(** What saving can add to the log. *)
Inductive save_trace (path : string) : list event → Prop :=
  | save_none : save_trace path []
  | save_refused : save_trace path [Login false]
  | save_written : save_trace path [Login true; Write path]
  | save_failed : save_trace path [Login true; WriteFailed path].

(** The outcome of [rank] from state [s], as far as the gate and the files go:
    the log grew by a load trace, the disk is as it was, and a refused gate
    call means the outcome is the login exception. *)
Definition gated_rank (s : state) (out : result (list nat) * state) : Prop :=
  ∃ l, log out.2 = log s ++ l ∧
       load_trace (_get_model_path (self s)) l ∧
       disk out.2 = disk s ∧
       (Login false ∈ l → out.1 = Err (Exception login_msg)).

(** The same for [feedback]: a load trace, then a save trace; a refused gate
    call means the login exception and an untouched disk, and when the load was
    refused nothing follows it; the disk changes only by the logged write,
    which stores the matrix in memory. *)
Definition gated_feedback (s : state) (out : result unit * state) : Prop :=
  ∃ l1 l2, log out.2 = log s ++ l1 ++ l2 ∧
       load_trace (_get_model_path (self s)) l1 ∧
       save_trace (_get_model_path (self s)) l2 ∧
       (Login false ∈ l1 ++ l2 →
          out.1 = Err (Exception login_msg) ∧ disk out.2 = disk s) ∧
       (Write (_get_model_path (self s)) ∉ l2 → disk out.2 = disk s) ∧
       (Write (_get_model_path (self s)) ∈ l2 →
          ∃ w, W (self out.2) = Some w ∧
               disk out.2 = <[_get_model_path (self s) := w]> (disk s)) ∧
       (Login false ∈ l1 → l2 = []).

(** A new ranker for the key of [s], over the disk and the log [s] left. *)
Definition reopen (s : state) : state :=
  __init__ (user_id (self s)) (password (self s)) (session_id (self s))
           (model_location (self s)) None (disk s) (log s).

(** *** The sort order of float64, through the binary representation

    A key whose lexicographic order is the order [np.less] sorts by. *)
Definition sf_key (x : spec_float) : Z * Z * Z :=
  match x with
  | S754_nan => (3, 0, 0)
  | S754_infinity false => (2, 0, 0)
  | S754_infinity true => (-2, 0, 0)
  | S754_zero _ => (0, 0, 0)
  | S754_finite false m e => (1, e, Zpos m)
  | S754_finite true m e => (-1, - e, Zneg m)
  end%Z.

Definition lex_lt (a b : Z * Z * Z) : Prop :=
  (a.1.1 < b.1.1 ∨
   (a.1.1 = b.1.1 ∧ (a.1.2 < b.1.2 ∨ (a.1.2 = b.1.2 ∧ a.2 < b.2))))%Z.

Definition sf_is_nan (x : spec_float) : bool :=
  match x with
  | S754_nan => true
  | _ => false
  end.

Definition sf_less (x y : spec_float) : bool :=
  SFltb x y || (sf_is_nan y && negb (sf_is_nan x)).

(** ** Sorts

    An insertion sort that meets the contract of [np.argsort] and keeps equal
    keys in input order, and numpy's own quicksort. *)

Module sorts.

Fixpoint insert_by (before : float → float → bool) (es : list float) (i : nat)
    (l : list nat) : list nat :=
  match l with
  | [] => [i]
  | j :: l' =>
      if before (nth i es 0%float) (nth j es 0%float) then i :: j :: l'
      else j :: insert_by before es i l'
  end.

Definition argsort_by (before : float → float → bool) (es : list float) : list nat :=
  fold_left (λ acc i, insert_by before es i acc) (seq 0 (length es)) [].

Definition argsort_stable : list float → list nat := argsort_by np.less.

(** *** numpy's quicksort for argsort

    [aquicksort_<npy::double_tag>] of numpy's npysort/quicksort.cpp, the code
    behind [np.argsort] with the default kind where no SIMD kernel is
    dispatched: median-of-three partitioning down to runs of at most 17
    elements, which are insertion-sorted; heapsort once the depth limit is
    used up.  [a] is the array of indices being permuted, [v] the keys. *)

Section Quicksort.
Variable v : list float.

(** The key of the index at position [p]. *)
Definition key (a : list nat) (p : nat) : float := nth (nth p a 0) v 0%float.

(** [INTP_SWAP] of the items at positions [p] and [q]. *)
Definition swap (a : list nat) (p q : nat) : list nat :=
  <[p := nth q a 0]> (<[q := nth p a 0]> a).

Definition median3 (a : list nat) (pl pm pr : nat) : list nat :=
  let a := if np.less (key a pm) (key a pl) then swap a pm pl else a in
  let a := if np.less (key a pr) (key a pm) then swap a pr pm else a in
  if np.less (key a pm) (key a pl) then swap a pm pl else a.

(** [do ++pi while] the key at [pi] is less than the pivot. *)
Fixpoint scan_up (fuel : nat) (a : list nat) (vp : float) (p : nat) : nat :=
  match fuel with
  | 0 => S p
  | S fuel' => if np.less (key a (S p)) vp then scan_up fuel' a vp (S p) else S p
  end.

(** [do --pj while] the pivot is less than the key at [pj]. *)
Fixpoint scan_down (fuel : nat) (a : list nat) (vp : float) (p : nat) : nat :=
  match fuel with
  | 0 => pred p
  | S fuel' => if np.less vp (key a (pred p)) then scan_down fuel' a vp (pred p)
               else pred p
  end.

(** The partition loop: scan, stop when the pointers meet, else swap. *)
Fixpoint hoare (fuel : nat) (a : list nat) (vp : float) (pi pj : nat)
    : list nat * nat :=
  match fuel with
  | 0 => (a, pi)
  | S fuel' =>
      let pi' := scan_up (length a) a vp pi in
      let pj' := scan_down (length a) a vp pj in
      if pj' <=? pi' then (a, pi') else hoare fuel' (swap a pi' pj') vp pi' pj'
  end.

Definition partition (a : list nat) (pl pr : nat) : list nat * nat :=
  let pm := pl + (pr - pl) / 2 in
  let a := median3 a pl pm pr in
  let vp := key a pm in
  let a := swap a pm (pr - 1) in
  let '(a, pi) := hoare (length a) a vp pl (pr - 1) in
  (swap a pi (pr - 1), pi).

(** The inner loop of insertion sort: items greater than the one being
    placed move up by one, then it is stored. *)
Fixpoint sift (fuel : nat) (a : list nat) (pl vi pj : nat) : list nat :=
  match fuel with
  | 0 => <[pj := vi]> a
  | S fuel' =>
      if (pl <? pj) && np.less (nth vi v 0%float) (key a (pj - 1))
      then sift fuel' (<[pj := nth (pj - 1) a 0]> a) pl vi (pj - 1)
      else <[pj := vi]> a
  end.

(** Insertion sort of [a[pl..pr]]. *)
Definition insertion (a : list nat) (pl pr : nat) : list nat :=
  fold_left (λ a pi, sift (length a) a pl (nth pi a 0) pi) (seq (S pl) (pr - pl)) a.

(** The sift-down of [aheapsort_], on the 1-based heap that starts at
    [base]: [a[k]] is the item at [base + k - 1]. *)
Fixpoint heap_down (fuel : nat) (a : list nat) (base n tmp i j : nat) : list nat :=
  match fuel with
  | 0 => <[base + i - 1 := tmp]> a
  | S fuel' =>
      if n <? j then <[base + i - 1 := tmp]> a else
      let j := if (j <? n) && np.less (key a (base + j - 1)) (key a (base + j))
               then j + 1 else j in
      if np.less (nth tmp v 0%float) (key a (base + j - 1))
      then heap_down fuel' (<[base + i - 1 := nth (base + j - 1) a 0]> a)
                     base n tmp j (j + j)
      else <[base + i - 1 := tmp]> a
  end.

Definition heapsort (a : list nat) (base n : nat) : list nat :=
  let a := fold_left (λ a l, heap_down (length a) a base n (nth (base + l - 1) a 0) l (l + l))
                     (rev (seq 1 (n / 2))) a in
  fold_left (λ a m,
               let tmp := nth (base + m - 1) a 0 in
               let a := <[base + m - 1 := nth base a 0]> a in
               heap_down (length a) a base (m - 1) tmp 1 2)
            (rev (seq 2 (n - 1))) a.

(** The inner loop: partition while the run is longer than 17, push the
    larger part, go on with the smaller. *)
Fixpoint partitions (fuel : nat) (a : list nat) (pl pr : nat)
    (stack : list (nat * nat * Z)) (cdepth : Z)
    : list nat * nat * nat * list (nat * nat * Z) :=
  match fuel with
  | 0 => (a, pl, pr, stack)
  | S fuel' =>
      if 16 <? pr - pl then
        let '(a, pi) := partition a pl pr in
        let cdepth := (cdepth - 1)%Z in
        if pi - pl <? pr - pi
        then partitions fuel' a pl (pi - 1) ((pi + 1, pr, cdepth) :: stack) cdepth
        else partitions fuel' a (pi + 1) pr ((pl, pi - 1, cdepth) :: stack) cdepth
      else (a, pl, pr, stack)
  end.

Fixpoint runs (fuel : nat) (a : list nat) (pl pr : nat)
    (stack : list (nat * nat * Z)) (cdepth : Z) : list nat :=
  match fuel with
  | 0 => a
  | S fuel' =>
      let '(a, stack) :=
        if (cdepth <? 0)%Z then (heapsort a pl (S pr - pl), stack)
        else
          let '(a, pl, pr, stack) := partitions (length a) a pl pr stack cdepth in
          (insertion a pl pr, stack) in
      match stack with
      | [] => a
      | (pl, pr, cdepth) :: stack => runs fuel' a pl pr stack cdepth
      end
  end.

End Quicksort.

Definition aquicksort (v : list float) : list nat :=
  let num := length v in
  runs v (S num) (seq 0 num) 0 (num - 1) [] (2 * Z.log2 (Z.of_nat num))%Z.

End sorts.

(** ** Sample rankers and inputs *)

Module examples.

(** An int64 array and a float64 array. *)
Definition ints (zs : list Z) : np.vector := map np.I64 zs.
Definition floats (fs : list float) : np.vector := map np.F64 fs.

(** A BLAS that accumulates left to right. *)
Definition ddot_seq (a b : list float) : float :=
  fold_left (λ acc xy, (acc + xy.1 * xy.2)%float) (zip a b) 0%float.

Definition blas_seq : np.blas :=
  np.mk_blas ddot_seq (λ M v i, ddot_seq (nth i M []) v).

(** A file system whose only directory is [models]. *)
Definition models_dir (path : string) : bool :=
  bool_decide (os_path.dirname path = "models").

(** A new ranker over an empty model directory. *)
Definition fresh : state := __init__ "user" "pw" "s1" "models/" None ∅ [].

(** A ranker whose 1 x 1 identity is already in memory. *)
Definition cached : state :=
  mk_state (mk_ranker "user" "pw" "s1" "models/" (Some 1) (Some (np.eye 1 1))) ∅ [].

(** A gate that refuses everyone. *)
Definition deny (r : FeedbackRanker) : bool := false.

(** A new ranker whose key already has a 2 x 2 matrix on disk. *)
Definition with_file : state :=
  __init__ "user" "pw" "s1" "models/" None {[ "models/user_s1" := np.eye 2 2 ]} [].

(** Twenty copies of one candidate. *)
Definition twenty : list np.vector := replicate 20 (floats [1%float]).

End examples.

Import examples.

(** * Properties *)

(** ** float64 *)

Section Float64.
Local Open Scope Z_scope.

Lemma compare_cont_Eq_spec (m1 m2 : positive) :
  CompareSpec (m1 = m2) (m1 < m2)%positive (m2 < m1)%positive
              (Pos.compare_cont Eq m1 m2).
Proof. apply Pos.compare_spec. Qed.

Lemma sf_less_key x y : sf_less x y = true ↔ lex_lt (sf_key x) (sf_key y).
Proof.
  unfold sf_less, SFltb, SFcompare, lex_lt.
  destruct x as [sx|sx| |sx mx ex], y as [sy|sy| |sy my ey];
    try destruct sx; try destruct sy; cbn;
    try (split; [intros; lia | intros; try reflexivity; lia]);
    try (split; [discriminate | lia]).
  all: destruct (Z.compare_spec ex ey);
       try destruct (compare_cont_Eq_spec mx my); cbn;
       split; try discriminate; try lia; try reflexivity.
Qed.

Lemma is_nan_spec x : PrimFloat.is_nan x = sf_is_nan (Prim2SF x).
Proof.
  unfold PrimFloat.is_nan. rewrite FloatAxioms.eqb_spec. unfold SFeqb, SFcompare.
  destruct (Prim2SF x) as [s|s| |s m e]; try destruct s; cbn; try reflexivity.
  all: by rewrite Z.compare_refl, Pos.compare_cont_refl.
Qed.

Lemma less_key x y :
  np.less x y = true ↔ lex_lt (sf_key (Prim2SF x)) (sf_key (Prim2SF y)).
Proof.
  unfold np.less. rewrite FloatAxioms.ltb_spec, !is_nan_spec. apply sf_less_key.
Qed.

(** [np.less] is a strict weak order. *)
Lemma less_irrefl x : np.less x x = false.
Proof.
  destruct (np.less x x) eqn:H; [|reflexivity]. apply less_key in H.
  unfold lex_lt in H. lia.
Qed.

Lemma less_asym x y : np.less x y = true → np.less y x = false.
Proof.
  intros H. destruct (np.less y x) eqn:H'; [|reflexivity].
  apply less_key in H, H'. unfold lex_lt in *. lia.
Qed.

Lemma less_negtrans a b c :
  np.less b a = false → np.less c b = false → np.less c a = false.
Proof.
  intros H1 H2. destruct (np.less c a) eqn:H; [|reflexivity]. apply less_key in H.
  assert (¬ lex_lt (sf_key (Prim2SF b)) (sf_key (Prim2SF a))) as N1.
  { intros K. apply less_key in K. congruence. }
  assert (¬ lex_lt (sf_key (Prim2SF c)) (sf_key (Prim2SF b))) as N2.
  { intros K. apply less_key in K. congruence. }
  unfold lex_lt in *. lia.
Qed.

(** Multiplying by 1.0 is exact. *)
Lemma mul_one_l (y : float) : (1 * y)%float = y.
Proof.
  apply Prim2SF_inj. rewrite mul_spec.
  pose proof (Prim2SF_valid y) as Hv.
  change (Prim2SF 1) with (S754_finite false 4503599627370496 (-52)).
  destruct (Prim2SF y) as [s|s| |s m e]; try reflexivity.
  unfold SF64mul, SFmul. cbn [xorb].
  unfold valid_binary, bounded, canonical_mantissa in Hv.
  apply andb_prop in Hv as [Hc Hb]. apply Z.eqb_eq in Hc. apply Z.leb_le in Hb.
  unfold binary_round_aux.
  assert (H1 : shr_fexp prec emax (Z.pos (4503599627370496 * m)) (-52 + e) loc_Exact
               = (Build_shr_record (Zpos m) false false, e)).
  { unfold shr_fexp. cbn [Zdigits2].
    change (4503599627370496 * m)%positive with (Pos.iter xO m 52).
    assert (Hd : Z.pos (digits2_pos (Pos.iter xO m 52)) = Z.pos (digits2_pos m) + 52).
    { cbn. lia. }
    rewrite Hd.
    replace (Z.pos (digits2_pos m) + 52 + (-52 + e)) with (Z.pos (digits2_pos m) + e)
      by lia.
    rewrite Hc. replace (e - (-52 + e)) with 52 by lia.
    cbn. f_equal. lia. }
  rewrite H1. cbn [shr_m loc_of_shr_record round_nearest_even].
  assert (H2 : shr_fexp prec emax (Z.pos m) e loc_Exact
               = (Build_shr_record (Zpos m) false false, e)).
  { unfold shr_fexp. cbn [Zdigits2]. rewrite Hc, Z.sub_diag. reflexivity. }
  rewrite H2. cbn [shr_m].
  apply Z.leb_le in Hb. rewrite Hb. reflexivity.
Qed.

(** Adding to +0.0 changes nothing but the sign of -0.0. *)
Lemma add_zero_l (f : float) :
  Prim2SF f ≠ S754_zero true → (0 + f)%float = f.
Proof.
  intros Hf. apply Prim2SF_inj. rewrite add_spec.
  change (Prim2SF 0) with (S754_zero false).
  destruct (Prim2SF f) as [s|s| |s m e]; try reflexivity.
  by destruct s.
Qed.

Lemma neg_zero_eq (f : float) : Prim2SF f = S754_zero true → f = (-0)%float.
Proof. intros Hf. apply Prim2SF_inj. by rewrite Hf. Qed.

(** A product with a zero is a zero, when the other factor is finite. *)
Lemma mul_zero_l (z f : float) :
  float_zero z → float_finite f → float_zero (z * f)%float.
Proof.
  intros [s Hz] Hf. unfold float_zero, float_finite in *.
  rewrite mul_spec, Hz. unfold SF64mul, SFmul.
  destruct (Prim2SF f) as [s'|s'| |s' m e]; try done; by eexists.
Qed.

Lemma mul_zero_r (f z : float) :
  float_finite f → float_zero z → float_zero (f * z)%float.
Proof.
  intros Hf [s Hz]. unfold float_zero, float_finite in *.
  rewrite mul_spec, Hz. unfold SF64mul, SFmul.
  destruct (Prim2SF f) as [s'|s'| |s' m e]; try done; by eexists.
Qed.

Lemma add_zero_zero (x y : float) :
  float_zero x → float_zero y → float_zero (x + y)%float.
Proof.
  intros [s Hx] [s' Hy]. unfold float_zero.
  rewrite add_spec, Hx, Hy. unfold SF64add, SFadd.
  destruct s, s'; by eexists.
Qed.

(** Adding a zero leaves the number as it is, the sign of a zero aside. *)
Lemma add_zero_r (w z : float) :
  float_zero z → (w + z)%float = w ∨ (float_zero (w + z)%float ∧ float_zero w).
Proof.
  intros [s Hz].
  destruct (Prim2SF w) as [sw|sw| |sw m e] eqn:Hw.
  - right. split; [|by eexists]. unfold float_zero.
    rewrite add_spec, Hw, Hz. unfold SF64add, SFadd. destruct sw, s; by eexists.
  - left. apply Prim2SF_inj. rewrite add_spec, Hw, Hz. done.
  - left. apply Prim2SF_inj. rewrite add_spec, Hw, Hz. done.
  - left. apply Prim2SF_inj. rewrite add_spec, Hw, Hz. done.
Qed.

Lemma float_zero_finite (z : float) : float_zero z → float_finite z.
Proof. intros [s Hz]. unfold float_finite. by rewrite Hz. Qed.

Lemma wrap_small (z : Z) : - 2 ^ 63 ≤ z < 2 ^ 63 → np.wrap z = z.
Proof. intros Hz. unfold np.wrap. rewrite Z.mod_small; lia. Qed.

Lemma wrap_range (z : Z) : - 2 ^ 63 ≤ np.wrap z < 2 ^ 63.
Proof.
  unfold np.wrap. pose proof (Z.mod_pos_bound (z + 2 ^ 63) (2 ^ 64)). lia.
Qed.

Lemma wrap_wrap (z : Z) : np.wrap (np.wrap z) = np.wrap z.
Proof. apply wrap_small, wrap_range. Qed.

End Float64.

(** ** numpy arrays *)

Section NumpyFacts.
Import np.

Lemma nth_tabulate_row (c : nat) (g : nat → number) (j : nat) :
  j < c → nth j (map g (seq 0 c)) (I64 0) = g j.
Proof.
  intros Hj. rewrite (nth_indep _ (I64 0) (g 0)) by (by rewrite length_map, length_seq).
  rewrite (map_nth g), seq_nth; done.
Qed.

Lemma item_tabulate r c f i j : i < r → j < c → item (tabulate r c f) i j = f i j.
Proof.
  intros Hi Hj. unfold item, tabulate; simpl.
  rewrite (nth_indep _ [] ((λ i, map (λ j, f i j) (seq 0 c)) 0))
    by (by rewrite length_map, length_seq).
  rewrite (map_nth (λ i, map (λ j, f i j) (seq 0 c))), seq_nth by done.
  by apply nth_tabulate_row.
Qed.

Lemma nrows_tabulate r c f : nrows (tabulate r c f) = r.
Proof. unfold nrows, tabulate; simpl. by rewrite length_map, length_seq. Qed.

Lemma ncols_tabulate r c f : ncols (tabulate r c f) = c.
Proof. done. Qed.

Lemma shape_tabulate r c f : shape (tabulate r c f) = (r, c).
Proof. unfold shape. by rewrite nrows_tabulate. Qed.

Lemma wf_tabulate r c f : wf (tabulate r c f).
Proof.
  unfold wf, tabulate; simpl. apply Forall_forall. intros x Hx.
  apply list_elem_of_In, in_map_iff in Hx as (i & <- & _).
  by rewrite length_map, length_seq.
Qed.

Lemma row_ext (a b : vector) :
  length a = length b → (∀ j, j < length a → nth j a (I64 0) = nth j b (I64 0)) → a = b.
Proof.
  revert b. induction a as [|x a IH]; intros [|y b] Hlen H; simplify_eq/=; [done|].
  f_equal.
  - apply (H 0). lia.
  - apply IH; [done|]. intros j Hj. apply (H (S j)). lia.
Qed.

Lemma rows_ext (c : nat) (A B : list vector) :
  length A = length B →
  Forall (λ r, length r = c) A → Forall (λ r, length r = c) B →
  (∀ i j, i < length A → j < c →
     nth j (nth i A []) (I64 0) = nth j (nth i B []) (I64 0)) →
  A = B.
Proof.
  revert B. induction A as [|a A IH]; intros [|b B] Hlen HA HB H; simplify_eq/=; [done|].
  inversion_clear HA. inversion_clear HB. f_equal.
  - apply row_ext; [congruence|]. intros j Hj. apply (H 0 j); lia.
  - apply IH; [done..|]. intros i j Hi Hj. apply (H (S i) j); lia.
Qed.

(** Two well-formed arrays of one shape with the same items are equal. *)
Lemma ndarray_ext (A B : ndarray) :
  wf A → wf B → shape A = shape B →
  (∀ i j, i < nrows A → j < ncols A → item A i j = item B i j) → A = B.
Proof.
  destruct A as [ca ra], B as [cb rb]. unfold wf, shape, nrows, item; simpl.
  intros HA HB [= Hr Hc] H. subst cb. f_equal. by eapply rows_ext.
Qed.

Lemma bdim_same a : bdim a a = Some a.
Proof. unfold bdim. by rewrite decide_True. Qed.

Lemma bidx_lt n i : i < n → bidx n i = i.
Proof. unfold bidx. intros Hi. case_decide; lia. Qed.

(** On equal shapes [+] is the entrywise sum. *)
Lemma add_same_shape (A B : ndarray) :
  shape A = shape B →
  add A B = Ok (tabulate (nrows A) (ncols A) (λ i j, num_add (item A i j) (item B i j))).
Proof.
  unfold shape. intros [= Hr Hc]. unfold add. rewrite <- Hr, <- Hc, !bdim_same.
  f_equal. unfold tabulate. f_equal.
  apply map_ext_in. intros i Hi%in_seq. apply map_ext_in. intros j Hj%in_seq.
  unfold bitem. rewrite <- Hr, <- Hc, !bidx_lt by lia. done.
Qed.

Lemma item_map_items f M i j :
  i < nrows M → j < length (nth i (rows M) []) →
  item (map_items f M) i j = f (item M i j).
Proof.
  unfold item, map_items, nrows; simpl. intros Hi Hj.
  rewrite (nth_indep _ [] (map f [])) by (by rewrite length_map).
  rewrite (map_nth (map f)).
  rewrite (nth_indep _ (I64 0) (f (I64 0))) by (by rewrite length_map).
  by rewrite (map_nth f).
Qed.

Lemma wf_map_items f M : wf M → wf (map_items f M).
Proof.
  unfold wf, map_items; simpl. intros H. apply Forall_fmap.
  eapply Forall_impl; [exact H|]. intros r Hr; simpl. by rewrite length_map.
Qed.

Lemma shape_map_items f M : shape (map_items f M) = shape M.
Proof. unfold shape, nrows, map_items; simpl. by rewrite length_map. Qed.

Lemma wf_row M i : wf M → i < nrows M → length (nth i (rows M) []) = ncols M.
Proof.
  unfold wf, nrows. intros H Hi.
  apply (Forall_forall (λ r, length r = ncols M) (rows M)); [done|].
  apply list_elem_of_In, nth_In. done.
Qed.

Lemma length_asarray a : length (asarray a) = length a.
Proof. unfold asarray. destruct (int_dtype a); [done|]. by rewrite length_map. Qed.

Lemma wf_outer a b : wf (outer a b).
Proof.
  unfold wf, outer; simpl. apply Forall_fmap, Forall_forall. intros x _; simpl.
  by rewrite length_map, length_asarray.
Qed.

Lemma shape_outer a b : shape (outer a b) = (length a, length b).
Proof. unfold shape, nrows, outer; simpl. by rewrite length_map, length_asarray. Qed.

Lemma item_outer a b j k :
  j < length a → k < length b →
  item (outer a b) j k
  = num_mul (nth j (asarray a) (I64 0)) (nth k (asarray b) (I64 0)).
Proof.
  intros Hj Hk. unfold item, outer; simpl.
  rewrite (nth_indep _ [] ((λ x, map (λ y, num_mul x y) (asarray b)) (I64 0)))
    by (by rewrite length_map, length_asarray).
  rewrite (map_nth (λ x, map (λ y, num_mul x y) (asarray b))).
  rewrite (nth_indep _ (I64 0) ((λ y, num_mul (nth j (asarray a) (I64 0)) y) (I64 0)))
    by (by rewrite length_map, length_asarray).
  by rewrite (map_nth (λ y, num_mul (nth j (asarray a) (I64 0)) y)).
Qed.

(** [np.zeros((d, d)) + np.eye(d, d)] is the identity. *)
Lemma zeros_add_eye d : add (zeros d d) (eye d d) = Ok (eye d d).
Proof.
  rewrite add_same_shape by (unfold zeros, eye; by rewrite !shape_tabulate). f_equal.
  unfold zeros at 1 2. rewrite nrows_tabulate, ncols_tabulate.
  unfold eye, tabulate. f_equal.
  apply map_ext_in. intros i Hi%in_seq. apply map_ext_in. intros j Hj%in_seq.
  fold (tabulate d d (λ _ _ : nat, F64 0)).
  fold (tabulate d d (λ i j : nat, if decide (i = j) then F64 1 else F64 0)).
  rewrite !item_tabulate by lia. unfold zeros. rewrite item_tabulate by lia.
  by case_decide.
Qed.

Lemma item_eye d i j :
  i < d → j < d → item (eye d d) i j = if decide (i = j) then F64 1 else F64 0.
Proof. intros. unfold eye. by rewrite item_tabulate. Qed.

Lemma length_matvec blas M v : length (matvec blas M v) = nrows M.
Proof. unfold matvec. by rewrite length_map, length_seq. Qed.
End NumpyFacts.

(** ** The insertion sort meets the contract *)

Section InsertionArgsort.
Import sorts.
Variable es : list float.

Let key_le (i j : nat) : Prop := np.less (nth j es 0%float) (nth i es 0%float) = false.

Lemma insert_by_perm before i l : insert_by before es i l ≡ₚ i :: l.
Proof.
  induction l as [|j l IH]; simpl; [done|].
  destruct (before _ _); [done|].
  rewrite IH. apply Permutation_swap.
Qed.

Lemma fold_insert_perm before l acc :
  fold_left (λ acc i, insert_by before es i acc) l acc ≡ₚ acc ++ l.
Proof.
  revert acc. induction l as [|i l IH]; intros acc; simpl.
  - by rewrite app_nil_r.
  - rewrite IH, insert_by_perm. simpl. apply Permutation_middle.
Qed.

Lemma insert_by_sorted i l :
  StronglySorted key_le l → StronglySorted key_le (insert_by np.less es i l).
Proof.
  induction 1 as [|j l Hl IH Hj]; simpl.
  - repeat constructor.
  - destruct (np.less _ _) eqn:Hb.
    + constructor; [by constructor|].
      apply less_asym in Hb. constructor; [done|].
      eapply Forall_impl; [exact Hj|]. intros k Hk. unfold key_le in *.
      by eapply less_negtrans.
    + constructor; [done|].
      rewrite insert_by_perm. constructor; [|done]. done.
Qed.

Lemma fold_insert_sorted l acc :
  StronglySorted key_le acc →
  StronglySorted key_le (fold_left (λ acc i, insert_by np.less es i acc) l acc).
Proof.
  revert acc. induction l as [|i l IH]; intros acc Hacc; simpl; [done|].
  apply IH. by apply insert_by_sorted.
Qed.
End InsertionArgsort.

Lemma argsort_stable_spec : np.argsort_spec sorts.argsort_stable.
Proof.
  intros es. unfold sorts.argsort_stable, sorts.argsort_by. split.
  - by rewrite fold_insert_perm.
  - apply fold_insert_sorted. constructor.
Qed.

(** ** Running the methods *)

Ltac run :=
  cbv [mbind mret M_bind M_ret raise lift get_self put_self emit get_disk put_disk
       set_dimension set_W get_W path_exists pickle_load pickle_dump call_login];
  simpl.

Lemma index_Some {A} (l : list A) i a : l !! i = Some a → index l i = Ok a.
Proof. unfold index. by intros ->. Qed.

Lemma index_None {A} (l : list A) i : l !! i = None → index l i = Err IndexError.
Proof. unfold index. by intros ->. Qed.

Lemma index_nth {A} (l : list A) (i : nat) (d : A) :
  i < length l → index l i = Ok (nth i l d).
Proof.
  intros Hi. apply index_Some.
  destruct (nth_lookup_or_length l i d) as [H|H]; [done|lia].
Qed.

Lemma comprehension_fmap {A B C} (g : C → A) (f : A → result B) (l : list C) :
  comprehension f (g <$> l) = comprehension (f ∘ g) l.
Proof. induction l as [|c l IH]; csimpl; [done|]. by rewrite IH. Qed.

Section ListComprehension.
Context {A B : Type}.

Lemma comprehension_ext (f g : A → result B) (l : list A) :
  (∀ a, a ∈ l → f a = g a) → comprehension f l = comprehension g l.
Proof.
  induction l as [|a l IH]; intros H; simpl; [done|].
  rewrite H by left. rewrite IH; [done|]. intros. apply H. by right.
Qed.

Lemma comprehension_pure (g : A → B) (l : list A) :
  comprehension (λ a, Ok (g a)) l = Ok (map g l).
Proof. induction l as [|a l IH]; simpl; [done|]. by rewrite IH. Qed.

(** Iterating over [range(len(l))] and indexing is iterating over [l]. *)
Lemma comprehension_range (f : A → result B) (l : list A) :
  comprehension (λ i, a ← index l i; f a) (seq 0 (length l)) = comprehension f l.
Proof.
  induction l as [|a l IH]; simpl; [done|].
  rewrite <- fmap_S_seq, comprehension_fmap, <- IH. done.
Qed.
End ListComprehension.

Lemma comprehension_error {A B} (f : A → result B) (l : list A) e :
  comprehension f l = Err e → ∃ a, a ∈ l ∧ f a = Err e.
Proof.
  induction l as [|a l IH]; simpl; [done|].
  destruct (f a) as [b|e'] eqn:Hfa; simpl.
  - destruct (comprehension f l) as [bs|e'']; simpl; [done|].
    intros [= ->]. destruct IH as (a' & Hin & Ha'); [done|].
    exists a'. split; [by right|done].
  - intros [= ->]. exists a. split; [by left|done].
Qed.

Lemma comprehension_fails {A B} (f : A → result B) (l : list A) a e :
  a ∈ l → f a = Err e → ∃ e', comprehension f l = Err e'.
Proof.
  induction l as [|x l IH]; intros Hin Hfa; [by apply elem_of_nil in Hin|].
  simpl. apply elem_of_cons in Hin as [<-|Hin].
  - rewrite Hfa. by eexists.
  - destruct (f x); simpl; [|by eexists].
    destruct (IH Hin Hfa) as [e' ->]. by eexists.
Qed.

Lemma comprehension_length {A B} (f : A → result B) (l : list A) (bs : list B) :
  comprehension f l = Ok bs → length bs = length l.
Proof.
  revert bs. induction l as [|a l IH]; intros bs; simpl.
  - by intros [= <-].
  - destruct (f a); simpl; [|done].
    destruct (comprehension f l) as [bs'|]; simpl; [|done].
    intros [= <-]. simpl. f_equal. by apply IH.
Qed.

Lemma comprehension_ok_elem {A B} (f : A → result B) (l : list A) (bs : list B) a :
  comprehension f l = Ok bs → a ∈ l → ∃ b, f a = Ok b.
Proof.
  revert bs. induction l as [|x l IH]; intros bs Hc Hin; [by apply elem_of_nil in Hin|].
  simpl in Hc. destruct (f x) as [b|] eqn:Hfx; simpl in Hc; [|done].
  destruct (comprehension f l) as [bs'|]; simpl in Hc; [|done].
  apply elem_of_cons in Hin as [->|Hin]; [by exists b|by eapply IH].
Qed.

Lemma load_model_run gate (d : nat) (s : state) :
  gate (self s) = true →
  load_model gate d s =
    let p := _get_model_path (self s) in
    let w := match disk s !! p with Some w => w | None => np.eye d d end in
    (Ok w,
     mk_state (mk_ranker (user_id (self s)) (password (self s)) (session_id (self s))
                 (model_location (self s)) (Some d) (Some w))
              (disk s)
              (log s ++ Login true :: Exists p ::
                 match disk s !! p with Some _ => [Read p] | None => [] end)).
Proof.
  intros Hg. unfold load_model. run. rewrite Hg; simpl.
  change (_get_model_path (mk_ranker _ _ _ _ _ _)) with (_get_model_path (self s)).
  destruct (disk s !! _get_model_path (self s)) as [w|] eqn:Hd; simpl.
  - rewrite Hd. simpl. by rewrite <- !app_assoc.
  - rewrite zeros_add_eye. simpl. by rewrite <- !app_assoc.
Qed.

Lemma resolve_after_resolve (s : state) (D : nat) :
  W (self (after_resolve s D)) = Some (resolve s D).
Proof.
  unfold after_resolve, resolve. by destruct (W (self s)) eqn:HW.
Qed.

Lemma after_resolve_cached (s : state) (D : nat) (w : np.ndarray) :
  W (self s) = Some w → after_resolve s D = s ∧ resolve s D = w.
Proof. intros HW. unfold after_resolve, resolve. by rewrite HW. Qed.

Lemma path_after_resolve (s : state) (D : nat) :
  _get_model_path (self (after_resolve s D)) = _get_model_path (self s).
Proof. unfold after_resolve. by destruct (W (self s)). Qed.

Section AnyGate.
Variable gate : FeedbackRanker → bool.
Variable writable : string → bool.
Variable blas : np.blas.
Variable argsort : list float → list nat.

Lemma load_model_refused (d : nat) (s : state) :
  gate (self s) = false →
  load_model gate d s =
    (Err (Exception login_msg), mk_state (self s) (disk s) (log s ++ [Login false])).
Proof. intros Hg. unfold load_model. run. by rewrite Hg. Qed.

Lemma save_model_run (s : state) (w : np.ndarray) :
  W (self s) = Some w →
  save_model gate writable s =
    if gate (self s)
    then if writable (_get_model_path (self s))
         then (Ok tt, mk_state (self s) (<[_get_model_path (self s) := w]> (disk s))
                        (log s ++ [Login true; Write (_get_model_path (self s))]))
         else (Err OSError,
               mk_state (self s) (disk s)
                 (log s ++ [Login true; WriteFailed (_get_model_path (self s))]))
    else (Err (Exception login_msg),
          mk_state (self s) (disk s) (log s ++ [Login false])).
Proof.
  intros HW. unfold save_model. run.
  destruct (gate (self s)); simpl; [|done].
  rewrite HW. simpl. destruct (writable _); simpl; by rewrite <- app_assoc.
Qed.

Lemma save_model_no_model (s : state) :
  W (self s) = None →
  save_model gate writable s =
    (Err (Exception (if gate (self s) then nomodel_msg else login_msg)),
     mk_state (self s) (disk s) (log s ++ [Login (gate (self s))])).
Proof.
  intros HW. unfold save_model. run.
  destruct (gate (self s)); simpl; [|done]. by rewrite HW.
Qed.

Lemma rank_no_candidates (cands : list np.vector) (q : np.vector) (s : state) :
  cands !! 0 = None → rank gate blas argsort cands q s = (Err IndexError, s).
Proof. intros H0. unfold rank. by rewrite (index_None _ _ H0). Qed.

Lemma rank_sizes_differ (cands : list np.vector) (q t0 : np.vector) (s : state) :
  cands !! 0 = Some t0 → length q ≠ length t0 →
  rank gate blas argsort cands q s = (Err (Exception sizes_msg), s).
Proof.
  intros H0 Hne. unfold rank. rewrite (index_Some _ _ _ H0). run.
  by rewrite decide_True.
Qed.

Lemma rank_run_gate (cands : list np.vector) (q : np.vector) (s : state) t0 :
  cands !! 0 = Some t0 → length q = length t0 →
  (W (self s) = None → gate (self s) = true) →
  rank gate blas argsort cands q s =
    (es ← comprehension (energy blas (resolve s (length q)) q) cands; Ok (argsort es),
     after_resolve s (length q)).
Proof.
  intros H0 Hlen Hg. unfold rank. rewrite (index_Some _ _ _ H0). run.
  rewrite decide_False by (intros ?; congruence).
  unfold resolve, after_resolve, load_events, stored.
  destruct (W (self s)) as [w|] eqn:HW; simpl.
  - rewrite HW. rewrite comprehension_range.
    by destruct (comprehension _ cands).
  - rewrite load_model_run by auto. simpl.
    rewrite comprehension_range.
    unfold resolve, stored. rewrite HW.
    destruct (disk s !! _get_model_path (self s)) as [w|]; simpl;
      by destruct (comprehension _ cands).
Qed.

Lemma rank_refused (cands : list np.vector) (q : np.vector) (s : state) t0 :
  cands !! 0 = Some t0 → length q = length t0 →
  W (self s) = None → gate (self s) = false →
  rank gate blas argsort cands q s =
    (Err (Exception login_msg), mk_state (self s) (disk s) (log s ++ [Login false])).
Proof.
  intros H0 Hlen HW Hg. unfold rank. rewrite (index_Some _ _ _ H0). run.
  rewrite decide_False by (intros ?; congruence).
  rewrite HW, load_model_refused by done. done.
Qed.

Lemma feedback_sizes_differ (cands queries : list np.vector) (labels : list np.number)
    ra lr (s : state) q0 t0 :
  queries !! 0 = Some q0 → cands !! 0 = Some t0 → length q0 ≠ length t0 →
  feedback gate writable cands queries labels ra lr s = (Err (Exception sizes_msg), s).
Proof.
  intros Hq0 Ht0 Hne. unfold feedback.
  rewrite decide_False.
  2:{ intros [H|H]; apply length_zero_iff_nil in H; subst; done. }
  rewrite (index_Some _ _ _ Hq0), (index_Some _ _ _ Ht0). run.
  by rewrite decide_True.
Qed.

Lemma feedback_run_gate (cands queries : list np.vector) (labels : list np.number)
    ra lr (s : state) q0 t0 :
  queries !! 0 = Some q0 → cands !! 0 = Some t0 → length q0 = length t0 →
  (W (self s) = None → gate (self s) = true) →
  feedback gate writable cands queries labels ra lr s =
    let s1 := after_resolve s (length q0) in
    match total ← np.py_sum (outer_products cands queries labels);
          np.arr_add_py (resolve s (length q0)) (np.py_scale lr total) with
    | Ok w' =>
        if gate (with_W (self s1) w')
        then if writable (_get_model_path (self s))
             then (Ok tt, persisted s1 w')
             else (Err OSError, unwritten s1 w')
        else (Err (Exception login_msg), unsaved s1 w')
    | Err e => (Err e, s1)
    end.
Proof.
  intros Hq0 Ht0 Hlen Hg. unfold feedback.
  rewrite decide_False.
  2:{ intros [H|H]; apply length_zero_iff_nil in H; subst; done. }
  rewrite (index_Some _ _ _ Hq0), (index_Some _ _ _ Ht0). run.
  rewrite decide_False by (intros ?; congruence).
  unfold save_model, persisted, unsaved, unwritten, with_W. run.
  destruct (W (self s)) as [w|] eqn:HW.
  - unfold after_resolve, resolve. rewrite HW. simpl.
    destruct (np.py_sum _) as [total|e]; simpl; [|done].
    destruct (np.arr_add_py _ _) as [w'|e]; simpl; [|done].
    clear Hg. destruct (gate _); simpl; [|by rewrite <- ?app_assoc].
    change (_get_model_path (mk_ranker _ _ _ _ _ _)) with (_get_model_path (self s)).
    destruct (writable _); simpl; by rewrite <- ?app_assoc.
  - rewrite load_model_run by auto. simpl. clear Hg.
    unfold after_resolve, resolve, load_events, stored. rewrite HW.
    destruct (disk s !! _get_model_path (self s)) as [w|] eqn:Hd; simpl.
    all: destruct (np.py_sum _) as [total|e]; simpl; [|done].
    all: destruct (np.arr_add_py _ _) as [w'|e]; simpl; [|done].
    all: destruct (gate _); simpl; [|by rewrite <- ?app_assoc].
    all: change (_get_model_path (mk_ranker _ _ _ _ _ _))
           with (_get_model_path (self s)).
    all: destruct (writable _); simpl; by rewrite <- ?app_assoc.
Qed.

Lemma feedback_refused (cands queries : list np.vector) (labels : list np.number)
    ra lr (s : state) q0 t0 :
  queries !! 0 = Some q0 → cands !! 0 = Some t0 → length q0 = length t0 →
  W (self s) = None → gate (self s) = false →
  feedback gate writable cands queries labels ra lr s =
    (Err (Exception login_msg), mk_state (self s) (disk s) (log s ++ [Login false])).
Proof.
  intros Hq0 Ht0 Hlen HW Hg. unfold feedback.
  rewrite decide_False.
  2:{ intros [H|H]; apply length_zero_iff_nil in H; subst; done. }
  rewrite (index_Some _ _ _ Hq0), (index_Some _ _ _ Ht0). run.
  rewrite decide_False by (intros ?; congruence).
  rewrite HW, load_model_refused by done. done.
Qed.
End AnyGate.

Lemma rank_run blas argsort (cands : list np.vector) (q : np.vector) (s : state) t0 :
  cands !! 0 = Some t0 → length q = length t0 →
  rank _login blas argsort cands q s =
    (es ← comprehension (energy blas (resolve s (length q)) q) cands; Ok (argsort es),
     after_resolve s (length q)).
Proof. intros H0 Hlen. by apply (rank_run_gate _ _ _ _ _ _ t0). Qed.

Lemma feedback_run writable (cands queries : list np.vector) (labels : list np.number)
    ra lr (s : state) q0 t0 :
  queries !! 0 = Some q0 → cands !! 0 = Some t0 → length q0 = length t0 →
  feedback _login writable cands queries labels ra lr s =
    match total ← np.py_sum (outer_products cands queries labels);
          np.arr_add_py (resolve s (length q0)) (np.py_scale lr total) with
    | Ok w' =>
        if writable (_get_model_path (self s))
        then (Ok tt, persisted (after_resolve s (length q0)) w')
        else (Err OSError, unwritten (after_resolve s (length q0)) w')
    | Err e => (Err e, after_resolve s (length q0))
    end.
Proof.
  intros Hq0 Ht0 Hlen. rewrite (feedback_run_gate _ _ _ _ _ _ _ _ q0 t0) by done.
  simpl. by destruct (_ ≫= _).
Qed.

(** ** Energies and ranking *)

(** On fitting shapes the energy is computed, and is [computed_energy]. *)
Lemma energy_computed blas (w : np.ndarray) (q c : np.vector) (D : nat) :
  np.shape w = (D, D) → length q = D → length c = D →
  energy blas w q c = Ok (computed_energy blas w q c).
Proof.
  intros [= Hr Hc] Hq Hlen. unfold energy, np.dot21, np.dot11.
  rewrite decide_True by congruence. simpl.
  rewrite decide_True by (rewrite length_matvec; congruence).
  done.
Qed.

Lemma energies_computed blas (w : np.ndarray) (q : np.vector) (cands : list np.vector) D :
  np.shape w = (D, D) → length q = D →
  Forall (λ c, length c = D) cands →
  comprehension (energy blas w q) cands = Ok (map (computed_energy blas w q) cands).
Proof.
  intros Hsh Hq Hc. rewrite <- comprehension_pure.
  apply comprehension_ext. intros c Hin.
  eapply energy_computed; eauto.
  by apply (proj1 (Forall_forall _ _) Hc).
Qed.

Lemma nth_energies blas (w : np.ndarray) (q : np.vector) (cands : list np.vector) i :
  i < length cands →
  nth i (map (computed_energy blas w q) cands) 0%float = energy_of blas w q cands i.
Proof.
  intros Hi. unfold energy_of.
  rewrite (nth_indep _ 0%float (computed_energy blas w q [])) by (by rewrite length_map).
  apply map_nth.
Qed.

Lemma rank_energies blas (argsort : list float → list nat)
    (cands : list np.vector) (q : np.vector) (s : state) (D : nat) :
  cands ≠ [] → Forall (λ c, length c = D) cands → length q = D →
  np.shape (resolve s D) = (D, D) →
  rank _login blas argsort cands q s
    = (Ok (argsort (map (computed_energy blas (resolve s D) q) cands)),
       after_resolve s D).
Proof.
  intros Hne Hc Hq Hsh. destruct cands as [|t0 cands']; [done|].
  rewrite (rank_run _ _ _ _ _ t0); [|done|inversion Hc; congruence].
  rewrite Hq, (energies_computed _ _ _ _ D) by done. done.
Qed.

Lemma StronglySorted_impl_elem {A} (R1 R2 : A → A → Prop) (l : list A) :
  (∀ x y, x ∈ l → y ∈ l → R1 x y → R2 x y) →
  StronglySorted R1 l → StronglySorted R2 l.
Proof.
  intros HR Hs. induction Hs as [|x l Hs IH Hall]; constructor.
  - apply IH. intros a b Ha Hb. apply HR; apply elem_of_cons; by right.
  - apply Forall_forall. intros y Hy.
    apply HR; [apply elem_of_cons; by left|apply elem_of_cons; by right|].
    by apply (proj1 (Forall_forall _ _) Hall).
Qed.

(** What the contract of [np.argsort] gives for the computed energies. *)
Lemma argsort_sorted_by_energy blas (argsort : list float → list nat)
    (w : np.ndarray) (cands : list np.vector) (q : np.vector) :
  np.argsort_spec argsort →
  let e := energy_of blas w q cands in
  argsort (map (computed_energy blas w q) cands) ≡ₚ seq 0 (length cands) ∧
  StronglySorted (λ a b, np.less (e b) (e a) = false)
    (argsort (map (computed_energy blas w q) cands)).
Proof.
  intros Hsort e.
  destruct (Hsort (map (computed_energy blas w q) cands)) as [Hperm Hsorted].
  rewrite length_map in Hperm. split; [done|].
  eapply StronglySorted_impl_elem; [|exact Hsorted].
  intros a b Ha Hb. rewrite Hperm in Ha, Hb. apply elem_of_seq in Ha, Hb.
  unfold e. by rewrite !nth_energies by lia.
Qed.

(** C1 (amended): on a non-empty sequence of candidates of dimension D, with a
    query of dimension D and a D x D weight matrix in use, all of int64 or
    float64 numbers, [rank] returns a permutation of the indices 0..N-1 sorted
    by ascending computed energy, the float64
    [-0.5 * np.dot(query, np.dot(W, c_i))], in the order numpy sorts float64
    by; no candidate's computed energy sorts before that of the first
    index. *)
Theorem rank_sorted_permutation (blas : np.blas)
    (argsort : list float → list nat)
    (cands : list np.vector) (q : np.vector) (s : state) (D : nat) :
  np.argsort_spec argsort →
  cands ≠ [] → Forall (λ c, length c = D) cands → length q = D →
  np.shape (resolve s D) = (D, D) →
  Forall (λ c, np.numeric c = true) cands → np.numeric q = true →
  np.is_ndarray (resolve s D) = true →
  let e := energy_of blas (resolve s D) q cands in
  ∃ ranks,
    rank _login blas argsort cands q s = (Ok ranks, after_resolve s D) ∧
    ranks ≡ₚ seq 0 (length cands) ∧
    StronglySorted (λ a b, np.less (e b) (e a) = false) ranks ∧
    ∃ first rest, ranks = first :: rest ∧
                  ∀ i, i < length cands → np.less (e i) (e first) = false.
Proof.
  intros Hsort Hne Hc Hq Hsh _ _ _ e.
  destruct (argsort_sorted_by_energy blas argsort (resolve s D) cands q Hsort)
    as [Hperm Hsorted].
  eexists. split; [by apply rank_energies|]. split; [done|]. split; [done|].
  destruct (argsort _) as [|first rest] eqn:Hranks.
  { apply Permutation_nil_l in Hperm. destruct cands; [done|discriminate]. }
  exists first, rest. split; [done|]. intros i Hi.
  apply StronglySorted_inv in Hsorted as [_ Hall].
  assert (Hin : i ∈ first :: rest).
  { rewrite Hperm. apply elem_of_seq. lia. }
  apply elem_of_cons in Hin as [->|Hin].
  - apply less_irrefl.
  - by apply (proj1 (Forall_forall _ _) Hall).
Qed.

(** A run of C1 on three int64 candidates of dimension 2. *)
Lemma rank_sorted_permutation_witness :
  let cands := [ints [1; 2]; ints [3; 4]; ints [0; 0]]%Z in
  let q := ints [1; 1]%Z in
  let e := energy_of blas_seq (resolve fresh 2) q cands in
  ∃ ranks,
    rank _login blas_seq sorts.argsort_stable cands q fresh
      = (Ok ranks, after_resolve fresh 2) ∧
    ranks ≡ₚ seq 0 3 ∧
    StronglySorted (λ a b, np.less (e b) (e a) = false) ranks ∧
    ∃ first rest, ranks = first :: rest ∧ ∀ i, i < 3 → np.less (e i) (e first) = false.
Proof.
  apply (rank_sorted_permutation blas_seq sorts.argsort_stable
           [ints [1; 2]; ints [3; 4]; ints [0; 0]]%Z (ints [1; 1]%Z) fresh 2).
  - apply argsort_stable_spec.
  - discriminate.
  - repeat constructor.
  - reflexivity.
  - vm_compute. reflexivity.
  - repeat constructor.
  - reflexivity.
  - vm_compute. reflexivity.
Defined.

(** C1 as stated fails: float64 rounding changes the order.  The query
    [1e16, 1, -1e16] has the exact dot products 1 with [1, 1, 1] and 0.5 with
    [0, 0.5, 0], so over the real numbers the first candidate has the lower
    energy; computed left to right, 1e16 + 1 rounds to 1e16, the first energy
    is -0.0 and the second -0.25, and [rank] puts the second candidate
    first. *)
Lemma rank_rounding_counterexample :
  let cands := [examples.floats [1; 1; 1]; examples.floats [0; 0.5; 0]]%float in
  let q := examples.floats [1e16; 1; -1e16]%float in
  (rank _login examples.blas_seq sorts.aquicksort cands q examples.fresh).1
    = Ok [1; 0] ∧
  resolve examples.fresh 3 = np.eye 3 3 ∧
  bilinear_energy (np.eye 3 3) q (examples.floats [1; 1; 1]%float) = Q2Qc (-1 # 2) ∧
  bilinear_energy (np.eye 3 3) q (examples.floats [0; 0.5; 0]%float) = Q2Qc (-1 # 4) ∧
  (Q2Qc (-1 # 2) < Q2Qc (-1 # 4))%Qc.
Proof.
  do 2 (split; [vm_compute; reflexivity|]).
  do 2 (split; [apply Qc_is_canon; vm_compute; reflexivity|]).
  vm_compute. reflexivity.
Qed.

Lemma position_lookup (i : nat) (ranks : list nat) (p : nat) :
  position i ranks = Some p → ranks !! p = Some i.
Proof.
  revert p. induction ranks as [|j ranks IH]; intros p; simpl; [done|].
  case_decide as Hij.
  - intros [= <-]. by subst.
  - destruct (position i ranks) as [p'|]; simpl; [|done].
    intros [= <-]. simpl. by apply IH.
Qed.

Lemma position_elem (i : nat) (ranks : list nat) :
  i ∈ ranks → is_Some (position i ranks).
Proof.
  induction ranks as [|j ranks IH]; intros Hin; [by apply elem_of_nil in Hin|].
  simpl. case_decide; [by eexists|].
  apply elem_of_cons in Hin as [?|Hin]; [done|].
  destruct (IH Hin) as [p ->]. by eexists.
Qed.

(** In a sorted list the item at a smaller position is related to the one at
    a larger position. *)
Lemma sorted_positions (R : nat → nat → Prop) (ranks : list nat) (i j pi pj : nat) :
  StronglySorted R ranks →
  position i ranks = Some pi → position j ranks = Some pj → pj < pi → R j i.
Proof.
  intros Hs. revert pi pj. induction Hs as [|x l Hs IH Hall]; intros pi pj; simpl; [done|].
  destruct (decide (i = x)) as [->|Hi], (decide (j = x)) as [->|Hj].
  - intros [= <-] [= <-]. lia.
  - intros [= <-]. destruct (position j l); simpl; [|done]. intros [= <-]. lia.
  - destruct (position i l) as [p|] eqn:Hp; simpl; [|done]. intros [= <-] [= <-] _.
    apply (proj1 (Forall_forall _ _) Hall).
    apply list_elem_of_lookup. exists p. by apply position_lookup.
  - destruct (position i l) as [p|]; simpl; [|done].
    destruct (position j l) as [p'|]; simpl; [|done].
    intros [= <-] [= <-] Hlt. apply (IH p p'); [done|done|lia].
Qed.

(** C4 (amended): [rank] places a candidate whose computed energy sorts
    strictly before another's ahead of it, and every candidate has a position.
    Among candidates of equal computed energy the order is whatever
    [np.argsort] with its default kind yields; nothing is promised about
    it. *)
Theorem rank_strictly_lower_first (blas : np.blas)
    (argsort : list float → list nat)
    (cands : list np.vector) (q : np.vector) (s : state) (D : nat) :
  np.argsort_spec argsort →
  cands ≠ [] → Forall (λ c, length c = D) cands → length q = D →
  np.shape (resolve s D) = (D, D) →
  Forall (λ c, np.numeric c = true) cands → np.numeric q = true →
  np.is_ndarray (resolve s D) = true →
  let e := energy_of blas (resolve s D) q cands in
  ∃ ranks,
    rank _login blas argsort cands q s = (Ok ranks, after_resolve s D) ∧
    (∀ i, i < length cands → is_Some (position i ranks)) ∧
    (∀ i j pi pj, np.less (e i) (e j) = true →
       position i ranks = Some pi → position j ranks = Some pj → pi < pj).
Proof.
  intros Hsort Hne Hc Hq Hsh _ _ _ e.
  destruct (argsort_sorted_by_energy blas argsort (resolve s D) cands q Hsort)
    as [Hperm Hsorted].
  eexists. split; [by apply rank_energies|]. split.
  - intros i Hi. apply position_elem. rewrite Hperm. apply elem_of_seq. lia.
  - intros i j pi pj Hless Hpi Hpj.
    destruct (decide (pi < pj)) as [|Hge]; [done|]. exfalso.
    destruct (decide (pi = pj)) as [->|Hne'].
    + apply position_lookup in Hpi, Hpj. assert (i = j) as -> by congruence.
      fold e in Hless. by rewrite less_irrefl in Hless.
    + assert (Hlt : pj < pi) by lia.
      pose proof (sorted_positions _ _ i j pi pj Hsorted Hpi Hpj Hlt) as HR.
      simpl in HR. fold e in HR. congruence.
Qed.

(** A run of the amended C4 on three candidates, the first two tied. *)
Lemma rank_strictly_lower_first_witness :
  let cands := [ints [1]; ints [1]; ints [2]]%Z in
  let q := ints [1]%Z in
  let e := energy_of blas_seq (resolve fresh 1) q cands in
  ∃ ranks,
    rank _login blas_seq sorts.argsort_stable cands q fresh
      = (Ok ranks, after_resolve fresh 1) ∧
    (∀ i, i < 3 → is_Some (position i ranks)) ∧
    (∀ i j pi pj, np.less (e i) (e j) = true →
       position i ranks = Some pi → position j ranks = Some pj → pi < pj).
Proof.
  apply (rank_strictly_lower_first blas_seq sorts.argsort_stable
           [ints [1]; ints [1]; ints [2]]%Z (ints [1]%Z) fresh 1).
  - apply argsort_stable_spec.
  - discriminate.
  - repeat constructor.
  - reflexivity.
  - vm_compute. reflexivity.
  - repeat constructor.
  - reflexivity.
  - vm_compute. reflexivity.
Defined.

(** Two indices sorted by keys of which the second sorts strictly first
    come out as [1; 0]. *)
Lemma argsort_two_descending (argsort : list float → list nat) (x y : float) :
  np.argsort_spec argsort → np.less y x = true → argsort [x; y] = [1; 0].
Proof.
  intros Hsort Hless. destruct (Hsort [x; y]) as [Hperm Hsorted].
  simpl in Hperm.
  pose proof (Permutation_length Hperm) as Hlen.
  destruct (argsort [x; y]) as [|a [|b [|c l]]]; try discriminate Hlen.
  assert (Ha : a ∈ [0; 1]) by (rewrite <- Hperm; by left).
  assert (Hb : b ∈ [0; 1]) by (rewrite <- Hperm; right; by left).
  assert (Hnd : NoDup [a; b]) by (rewrite Hperm; apply (NoDup_seq 0 2)).
  apply NoDup_cons in Hnd as [Hab _].
  apply StronglySorted_inv in Hsorted as [_ Hall]. apply Forall_inv in Hall.
  set_unfold. destruct Ha as [->|[->|[]]], Hb as [->|[->|[]]];
    simpl in *; try done; try congruence; naive_solver.
Qed.

(** C4 as stated fails, in two ways.  First, candidates whose energies are
    equal need not come out in input order because their computed energies
    differ: with the query [1e16, 1, -1e16] the candidates [1, 1, 1] and
    [0, 1, 0] both have the dot product 1, but 1e16 + 1 rounds to 1e16, the
    computed energies are -0.0 and -0.5, and the second candidate is ranked
    first by whatever sort meets the contract.  Second, twenty candidates of
    one and the same computed energy come back from numpy's quicksort out of
    their input order. *)
Lemma rank_ties_counterexample :
  let q := examples.floats [1e16; 1; -1e16]%float in
  let a := examples.ints [1; 1; 1]%Z in
  let b := examples.ints [0; 1; 0]%Z in
  let q1 := examples.floats [1%float] in
  let e := energy_of examples.blas_seq (resolve examples.fresh 1) q1 examples.twenty in
  (bilinear_energy (resolve examples.fresh 3) q a
     = bilinear_energy (resolve examples.fresh 3) q b ∧
   ∀ argsort, np.argsort_spec argsort →
     (rank _login examples.blas_seq argsort [a; b] q examples.fresh).1 = Ok [1; 0]) ∧
  ((∀ i, i < 20 → e i = e 0) ∧
   ∃ ranks,
     (rank _login examples.blas_seq sorts.aquicksort examples.twenty q1
           examples.fresh).1 = Ok ranks ∧
     ¬ stable e ranks).
Proof.
  split; [split|split].
  - apply Qc_is_canon. vm_compute. reflexivity.
  - intros argsort Hsort.
    rewrite (rank_energies _ _ _ _ _ 3); [|done|repeat constructor|done|done].
    simpl. f_equal. apply argsort_two_descending; [done|].
    vm_compute. reflexivity.
  - intros i Hi. unfold energy_of. f_equal.
    do 20 (destruct i as [|i]; [done|]). lia.
  - exists [0; 17; 16; 15; 14; 13; 12; 11; 10; 9; 8; 7; 6; 5; 4; 3; 2; 1; 18; 19].
    split; [vm_compute; reflexivity|].
    intros Hst. specialize (Hst 1 2 17 16). simpl in Hst.
    assert (17 < 16); [|lia]. apply Hst; [lia| |done|done].
    split; apply less_irrefl.
Qed.

(** ** Failures of rank *)

Lemma energy_error blas (w : np.ndarray) (q c : np.vector) e :
  energy blas w q c = Err e → e = ValueError.
Proof.
  unfold energy, np.dot21, np.dot11.
  repeat (case_decide; simpl); congruence.
Qed.

Lemma energy_mismatch blas (w : np.ndarray) (q c : np.vector) :
  np.nrows w = np.ncols w → length c ≠ length q → energy blas w q c = Err ValueError.
Proof.
  intros Hsq Hne. unfold energy, np.dot21, np.dot11.
  case_decide as Hc; simpl; [|done].
  rewrite decide_False; [done|]. rewrite length_matvec. congruence.
Qed.

Lemma energies_mismatch blas (w : np.ndarray) (q : np.vector) (cands : list np.vector) :
  np.nrows w = np.ncols w →
  (∃ c, c ∈ cands ∧ length c ≠ length q) →
  comprehension (energy blas w q) cands = Err ValueError.
Proof.
  intros Hsq (c & Hin & Hne).
  destruct (comprehension_fails (energy blas w q) cands c ValueError Hin) as [e He].
  { by apply energy_mismatch. }
  rewrite He. f_equal.
  apply comprehension_error in He as (a & _ & Ha). by apply energy_error in Ha.
Qed.

(** C3 (amended): with a first candidate [t0], [rank] raises the sizes exception
    exactly when the query's length differs from that of [t0], and does so
    before any gate or file call.  When they agree but some later candidate has
    another length, [rank] still fails, with numpy's shape error, raised while
    the energies are computed and so after the matrix has been resolved (here
    for a square matrix). *)
Theorem rank_dimension_errors (blas : np.blas)
    (argsort : list float → list nat)
    (cands : list np.vector) (q t0 : np.vector) (s : state) :
  cands !! 0 = Some t0 →
  (∀ gate, length q ≠ length t0 →
     rank gate blas argsort cands q s = (Err (Exception sizes_msg), s)) ∧
  ((rank _login blas argsort cands q s).1 = Err (Exception sizes_msg) →
     length q ≠ length t0) ∧
  (length q = length t0 →
   np.nrows (resolve s (length q)) = np.ncols (resolve s (length q)) →
   (∃ c, c ∈ cands ∧ length c ≠ length q) →
   rank _login blas argsort cands q s = (Err ValueError, after_resolve s (length q))).
Proof.
  intros H0. split; [|split].
  - intros gate Hne. by apply (rank_sizes_differ _ _ _ _ _ t0).
  - intros Herr Heq. rewrite (rank_run _ _ _ _ _ t0) in Herr by done. simpl in Herr.
    destruct (comprehension _ cands) as [es|e] eqn:Hc; simpl in Herr; [done|].
    apply comprehension_error in Hc as (a & _ & Ha). apply energy_error in Ha.
    congruence.
  - intros Heq Hsq Hmis. rewrite (rank_run _ _ _ _ _ t0) by done.
    by rewrite energies_mismatch.
Qed.

(** A run of the amended C3 on a ragged candidate list. *)
Lemma rank_dimension_errors_witness :
  let cands := [ints [1; 2]; ints [1; 2; 3]]%Z in
  let q := ints [1; 2]%Z in
  (∀ gate, length q ≠ 2 →
     rank gate blas_seq sorts.argsort_stable cands q fresh
       = (Err (Exception sizes_msg), fresh)) ∧
  ((rank _login blas_seq sorts.argsort_stable cands q fresh).1
     = Err (Exception sizes_msg) →
     length q ≠ 2) ∧
  (length q = 2 →
   np.nrows (resolve fresh (length q)) = np.ncols (resolve fresh (length q)) →
   (∃ c, c ∈ cands ∧ length c ≠ length q) →
   rank _login blas_seq sorts.argsort_stable cands q fresh
     = (Err ValueError, after_resolve fresh (length q))).
Proof.
  apply (rank_dimension_errors blas_seq sorts.argsort_stable
           [ints [1; 2]; ints [1; 2; 3]]%Z (ints [1; 2]%Z) (ints [1; 2]%Z) fresh).
  reflexivity.
Defined.

(** C3 as stated fails: the second candidate has length 3 against a query of
    length 2, and the failure is numpy's shape error, not the sizes exception. *)
Lemma rank_later_mismatch_counterexample :
  let cands := [examples.ints [1; 2]; examples.ints [1; 2; 3]]%Z in
  let q := examples.ints [1; 2]%Z in
  (∃ c, c ∈ cands ∧ length c ≠ length q) ∧
  (rank _login examples.blas_seq sorts.aquicksort cands q examples.fresh).1
    = Err ValueError ∧
  (rank _login examples.blas_seq sorts.aquicksort cands q examples.fresh).1
    ≠ Err (Exception sizes_msg).
Proof.
  split; [|split].
  - exists (examples.ints [1; 2; 3]%Z). split; [|simpl; lia].
    apply list_elem_of_lookup. by exists 1.
  - vm_compute. reflexivity.
  - vm_compute. discriminate.
Qed.

(** C10: rank on an empty candidate sequence fails with the IndexError of
    [target_vector_array[0]], whatever the gate and the query; the state, and
    with it the log of gate and file calls, is untouched, and no ranking is
    returned. *)
Theorem rank_empty_fails (gate : FeedbackRanker → bool)
    (blas : np.blas) (argsort : list float → list nat)
    (q : np.vector) (s : state) :
  rank gate blas argsort [] q s = (Err IndexError, s).
Proof. done. Qed.

(** ** The batch update *)

Lemma item_scale s M j k :
  np.wf M → j < np.nrows M → k < np.ncols M →
  np.item (np.scale s M) j k = np.num_mul s (np.item M j k).
Proof.
  intros Hwf Hj Hk. unfold np.scale.
  rewrite item_map_items; [done|done|]. by rewrite wf_row.
Qed.

Lemma nth_length_D (D : nat) (l : list np.vector) i :
  Forall (λ c, length c = D) l → i < length l → length (nth i l []) = D.
Proof.
  intros H Hi. apply (proj1 (Forall_forall (λ c, length c = D) l) H).
  by apply list_elem_of_In, nth_In.
Qed.

Section HebbianSum.
Variables (cands queries : list np.vector) (labels : list np.number) (D : nat).
Hypothesis Hcands : length cands = length labels.
Hypothesis Hqueries : length queries = length labels.
Hypothesis Hc : Forall (λ c, length c = D) cands.
Hypothesis Hq : Forall (λ c, length c = D) queries.

Let term (i : nat) : np.ndarray :=
  np.scale (nth i labels (np.I64 0)) (np.outer (nth i cands []) (nth i queries [])).
Let f (j k i : nat) : np.number :=
  np.num_mul (nth i labels (np.I64 0))
    (np.num_mul (nth j (np.asarray (nth i cands [])) (np.I64 0))
                (nth k (np.asarray (nth i queries [])) (np.I64 0))).

Lemma outer_products_terms :
  outer_products cands queries labels = map (λ i, Ok (term i)) (seq 0 (length labels)).
Proof.
  unfold outer_products. apply map_ext_in. intros i Hi%in_seq.
  rewrite (index_nth labels i (np.I64 0)) by lia.
  rewrite (index_nth cands i []) by lia.
  rewrite (index_nth queries i []) by lia. done.
Qed.

Lemma term_wf i : np.wf (term i).
Proof. apply wf_map_items, wf_outer. Qed.

Lemma term_shape i : i < length labels → np.shape (term i) = (D, D).
Proof.
  intros Hi. unfold term, np.scale. rewrite shape_map_items, shape_outer.
  rewrite !(nth_length_D D) by (done || lia). done.
Qed.

Lemma term_item i j k :
  i < length labels → j < D → k < D → np.item (term i) j k = f j k i.
Proof.
  intros Hi Hj Hk. unfold term.
  pose proof (shape_outer (nth i cands []) (nth i queries [])) as Hsh.
  rewrite !(nth_length_D D) in Hsh by (done || lia). unfold np.shape in Hsh.
  rewrite item_scale; [|apply wf_outer|..].
  - rewrite item_outer by (rewrite (nth_length_D D) by (done || lia); done). done.
  - replace (np.nrows _) with D by congruence. done.
  - replace (np.ncols _) with D by congruence. done.
Qed.

(** Adding the items [a], [a+1], ... to an array total. *)
Lemma py_sum_from_arr n : ∀ a acc,
  a + n ≤ length labels → np.wf acc → np.shape acc = (D, D) →
  ∃ S, np.py_sum_from (np.PyArr acc) (map (λ i, Ok (term i)) (seq a n)) = Ok (np.PyArr S) ∧
       np.wf S ∧ np.shape S = (D, D) ∧
       ∀ j k, j < D → k < D →
         np.item S j k
         = fold_left (λ x i, np.num_add x (f j k i)) (seq a n) (np.item acc j k).
Proof.
  induction n as [|n IH]; intros a acc Ha Hwf Hsh; simpl.
  - exists acc. repeat split; done.
  - rewrite add_same_shape by (rewrite term_shape by lia; done). simpl.
    injection Hsh as Hr Hcl. rewrite Hr, Hcl.
    destruct (IH (S a) (np.tabulate D D
                (λ i j, np.num_add (np.item acc i j) (np.item (term a) i j))))
      as (S' & Hrun & HwfS & HshS & Hitems);
      [lia|apply wf_tabulate|apply shape_tabulate|].
    exists S'. repeat split; try done.
    intros j k Hj Hk. rewrite Hitems, item_tabulate, term_item by (done || lia).
    done.
Qed.

Lemma py_sum_outer_products :
  0 < length labels →
  ∃ S, np.py_sum (outer_products cands queries labels) = Ok (np.PyArr S) ∧
       np.wf S ∧ np.shape S = (D, D) ∧
       ∀ j k, j < D → k < D → np.item S j k = hebbian_sum cands queries labels j k.
Proof.
  intros HN. rewrite outer_products_terms. unfold np.py_sum, hebbian_sum.
  assert (Hseq : seq 0 (length labels) = 0 :: seq 1 (length labels - 1)).
  { clear -HN. destruct (length labels); [lia|]. simpl. by rewrite Nat.sub_0_r. }
  rewrite Hseq. simpl.
  destruct (py_sum_from_arr (length labels - 1) 1
              (np.map_items (np.num_add (np.I64 0)) (term 0)))
    as (S' & Hrun & HwfS & HshS & Hitems).
  - lia.
  - apply wf_map_items, term_wf.
  - rewrite shape_map_items. apply term_shape. lia.
  - exists S'. repeat split; try done.
    intros j k Hj Hk. rewrite Hitems by done.
    pose proof (term_shape 0 HN) as Hsh0. unfold np.shape in Hsh0.
    rewrite item_map_items.
    + rewrite term_item by done. done.
    + replace (np.nrows _) with D by congruence. done.
    + rewrite wf_row; [|apply term_wf|].
      * replace (np.ncols _) with D by congruence. done.
      * replace (np.nrows _) with D by congruence. done.
Qed.
End HebbianSum.

Lemma head_length_D (l : list np.vector) (D : nat) :
  0 < length l → Forall (λ c, length c = D) l → ∃ x, l !! 0 = Some x ∧ length x = D.
Proof.
  destruct l as [|x l]; simpl; [lia|]. intros _ H. exists x. split; [done|].
  by inversion H.
Qed.

(** What the batch update computes, entry by entry, and what the call then
    does with it. *)
Lemma feedback_entries writable (cands queries : list np.vector)
    (labels : list np.number) (ra : option (list nat)) (lr : np.number)
    (s : state) (D : nat) :
  length cands = length labels → length queries = length labels →
  0 < length labels →
  Forall (λ c, length c = D) cands → Forall (λ c, length c = D) queries →
  np.wf (resolve s D) → np.shape (resolve s D) = (D, D) →
  ∃ w',
    feedback _login writable cands queries labels ra lr s
      = (if writable (_get_model_path (self s))
         then (Ok tt, persisted (after_resolve s D) w')
         else (Err OSError, unwritten (after_resolve s D) w')) ∧
    np.wf w' ∧ np.shape w' = (D, D) ∧
    ∀ j k, j < D → k < D →
      np.item w' j k
      = np.num_add (np.item (resolve s D) j k)
          (np.num_mul lr (hebbian_sum cands queries labels j k)).
Proof.
  intros Hcl Hql HN Hc Hq Hwf Hsh.
  destruct (head_length_D cands D) as (t0 & Ht0 & HtD); [lia|done|].
  destruct (head_length_D queries D) as (q0 & Hq0 & HqD); [lia|done|].
  destruct (py_sum_outer_products cands queries labels D Hcl Hql Hc Hq HN)
    as (S & Hsum & HwfS & HshS & Hitems).
  rewrite (feedback_run _ _ _ _ _ _ _ q0 t0) by (done || congruence).
  rewrite HqD, Hsum. simpl.
  rewrite add_same_shape by (unfold np.scale; by rewrite shape_map_items, HshS).
  unfold np.shape in Hsh, HshS.
  replace (np.nrows (resolve s D)) with D by congruence.
  replace (np.ncols (resolve s D)) with D by congruence.
  eexists. split; [by destruct (writable _)|].
  split; [apply wf_tabulate|]. split; [apply shape_tabulate|].
  intros j k Hj Hk. rewrite item_tabulate by done.
  rewrite item_scale, Hitems; [done|done|done|done|..].
  - replace (np.nrows S) with D by congruence. done.
  - replace (np.ncols S) with D by congruence. done.
Qed.

(** A product of two array items is in the int64 range when it is an
    integer. *)
Lemma num_mul_int (x y : np.number) (z : Z) :
  np.num_mul x y = np.I64 z → np.wrap z = z.
Proof.
  destruct x, y; simpl; intros [= <-]. apply wrap_wrap.
Qed.

(** Adding 0.0 + f in place of f to 0.0 or 1.0 gives the same float64. *)
Lemma add_zero_absorb (x f : float) :
  x = 0%float ∨ x = 1%float → (x + (0 + f))%float = (x + f)%float.
Proof.
  intros Hx. destruct (Prim2SF f) as [sf|sf| |sf m e] eqn:Hf.
  1: destruct sf.
  1: { apply neg_zero_eq in Hf as ->. by destruct Hx as [-> | ->]. }
  all: rewrite add_zero_l; [done|]; by rewrite Hf.
Qed.

(** With label 1 and rate 1.0 the update of an identity entry is the sum of
    the entry and the product. *)
Lemma unit_update (x : float) (l p : np.number) :
  x = 0%float ∨ x = 1%float →
  l = np.I64 1 ∨ l = np.F64 1 →
  (∀ z, p = np.I64 z → np.wrap z = z) →
  np.num_add (np.F64 x)
    (np.num_mul (np.F64 1) (np.num_add (np.I64 0) (np.num_mul l p)))
  = np.num_add (np.F64 x) p.
Proof.
  intros Hx Hl Hp. destruct p as [z|f].
  - specialize (Hp z eq_refl). destruct Hl as [-> | ->]; cbn [np.num_mul np.num_add np.to_float].
    + rewrite Z.mul_1_l, Hp, Z.add_0_l, Hp. by rewrite mul_one_l.
    + rewrite !mul_one_l. change (np.float_of_int 0) with 0%float.
      by rewrite add_zero_absorb.
  - destruct Hl as [-> | ->]; cbn [np.num_mul np.num_add np.to_float].
    + change (np.float_of_int 1) with 1%float.
      change (np.float_of_int 0) with 0%float.
      rewrite !mul_one_l. by rewrite add_zero_absorb.
    + change (np.float_of_int 0) with 0%float.
      rewrite !mul_one_l. by rewrite add_zero_absorb.
Qed.

(** C2 (amended): a feedback call on N >= 1 parallel candidates, queries and
    labels, all vectors of dimension D, on a well-formed D x D matrix whose
    file can be written, all of int64 or float64 numbers, succeeds and leaves
    (in memory and on disk) the matrix whose entry (j, k) is
    [W[j][k] + lr * sum_i labels[i] * (c_i[j] * q_i[k])] as numpy computes it:
    int64 products and sums wrap, float64 ones are rounded, and the sum runs
    from the integer 0 left to right.  From the identity, with one candidate
    c, one query q, label 1 and rate 1.0, the new matrix is numpy's
    [I + outer(c, q)]. *)
Theorem feedback_hebbian_update (writable : string → bool)
    (cands queries : list np.vector) (labels : list np.number)
    (ra : option (list nat)) (lr : np.number) (s : state) (D : nat) :
  length cands = length labels → length queries = length labels →
  0 < length labels →
  Forall (λ c, length c = D) cands → Forall (λ c, length c = D) queries →
  np.wf (resolve s D) → np.shape (resolve s D) = (D, D) →
  Forall (λ c, np.numeric c = true) cands →
  Forall (λ c, np.numeric c = true) queries →
  np.numeric labels = true → np.in_range lr = true →
  np.is_ndarray (resolve s D) = true →
  writable (_get_model_path (self s)) = true →
  ∃ w',
    feedback _login writable cands queries labels ra lr s
      = (Ok tt, persisted (after_resolve s D) w') ∧
    np.wf w' ∧ np.shape w' = (D, D) ∧
    (∀ j k, j < D → k < D →
       np.item w' j k
       = np.num_add (np.item (resolve s D) j k)
           (np.num_mul lr (hebbian_sum cands queries labels j k))) ∧
    (∀ c q l, cands = [c] → queries = [q] → labels = [l] →
              l = np.I64 1 ∨ l = np.F64 1 → lr = np.F64 1 →
              resolve s D = np.eye D D →
              np.add (np.eye D D) (np.outer c q) = Ok w').
Proof.
  intros Hcl Hql HN Hc Hq Hwf Hsh _ _ _ _ _ Hwr.
  destruct (feedback_entries writable cands queries labels ra lr s D)
    as (w' & Hrun & Hwf' & Hsh' & Hit); try done.
  rewrite Hwr in Hrun.
  exists w'. repeat split; try done.
  intros c q l -> -> -> Hl -> HI.
  apply Forall_inv in Hc, Hq.
  rewrite add_same_shape by (unfold np.eye; by rewrite shape_tabulate, shape_outer, Hc, Hq).
  f_equal. unfold np.eye at 1 2. rewrite nrows_tabulate, ncols_tabulate.
  apply ndarray_ext; [apply wf_tabulate|done|by rewrite shape_tabulate|].
  intros j k. rewrite nrows_tabulate, ncols_tabulate. intros Hj Hk.
  rewrite item_tabulate, Hit, HI, item_outer, item_eye by (done || congruence).
  unfold hebbian_sum. simpl. symmetry.
  assert (Hx : ∃ x, (if decide (j = k) then np.F64 1 else np.F64 0) = np.F64 x ∧
                    (x = 0%float ∨ x = 1%float)).
  { case_decide; eexists; split; eauto. }
  destruct Hx as (x & -> & Hx).
  apply unit_update; [done|done|]. intros z. apply num_mul_int.
Qed.

(** A run of C2: candidate [1,0,0], query [0,1,0], label 1, rate 1.0. *)
Lemma feedback_hebbian_update_witness :
  let cands := [ints [1; 0; 0]]%Z in
  let queries := [ints [0; 1; 0]]%Z in
  ∃ w',
    feedback _login models_dir cands queries [np.I64 1] None (np.F64 1) fresh
      = (Ok tt, persisted (after_resolve fresh 3) w') ∧
    np.wf w' ∧ np.shape w' = (3, 3) ∧
    (∀ j k, j < 3 → k < 3 →
       np.item w' j k
       = np.num_add (np.item (resolve fresh 3) j k)
           (np.num_mul (np.F64 1) (hebbian_sum cands queries [np.I64 1] j k))) ∧
    (∀ c q l, cands = [c] → queries = [q] → [np.I64 1] = [l] →
              l = np.I64 1 ∨ l = np.F64 1 → np.F64 1 = np.F64 1 →
              resolve fresh 3 = np.eye 3 3 →
              np.add (np.eye 3 3) (np.outer c q) = Ok w').
Proof.
  apply (feedback_hebbian_update models_dir [ints [1; 0; 0]]%Z [ints [0; 1; 0]]%Z
           [np.I64 1] None (np.F64 1) fresh 3).
  - reflexivity.
  - reflexivity.
  - simpl. lia.
  - repeat constructor.
  - repeat constructor.
  - vm_compute. repeat constructor.
  - vm_compute. reflexivity.
  - repeat constructor.
  - repeat constructor.
  - reflexivity.
  - reflexivity.
  - vm_compute. reflexivity.
  - vm_compute. reflexivity.
Defined.

(** C2 as stated fails: int64 products wrap.  With the candidate [2^62], the
    query [4] and label 1 as integers, and rate 1.0, the formula over the
    numbers gives 1 + 2^64 for the one entry; numpy's int64 product 2^62 * 4
    is 0, and the matrix stays [[1.0]]. *)
Lemma feedback_int64_wrap_counterexample :
  let cands := [examples.ints [2 ^ 62]%Z] in
  let queries := [examples.ints [4]%Z] in
  let labels := [np.I64 1] in
  let out := feedback _login examples.models_dir cands queries labels None (np.F64 1)
                      examples.fresh in
  out.1 = Ok tt ∧
  resolve examples.fresh 1 = np.eye 1 1 ∧
  W (self out.2) = Some (np.eye 1 1) ∧
  hebbian_update (np.eye 1 1) (np.F64 1) cands queries labels 0 0
    = Q2Qc (inject_Z (1 + 2 ^ 64)) ∧
  value (np.item (np.eye 1 1) 0 0) = Q2Qc (inject_Z 1) ∧
  hebbian_update (np.eye 1 1) (np.F64 1) cands queries labels 0 0
    ≠ value (np.item (np.eye 1 1) 0 0).
Proof.
  do 3 (split; [vm_compute; reflexivity|]).
  do 2 (split; [apply Qc_is_canon; vm_compute; reflexivity|]).
  intros H. apply (f_equal this) in H. vm_compute in H. discriminate.
Qed.

Lemma persisted_written (s : state) (D : nat) (w : np.ndarray) :
  W (self (persisted (after_resolve s D) w)) = Some w ∧
  stored (persisted (after_resolve s D) w) = Some w ∧
  last (log (persisted (after_resolve s D) w)) = Some (Write (_get_model_path (self s))).
Proof.
  pose proof (path_after_resolve s D) as Hp.
  unfold persisted, stored. cbn [self disk log]. split; [done|]. split.
  - apply lookup_insert_eq.
  - rewrite Hp.
    change [Login true; Write (_get_model_path (self s))]
      with ([Login true] ++ [Write (_get_model_path (self s))]).
    rewrite app_assoc. apply last_snoc.
Qed.

(** *** Zero labels *)

Lemma float_zero_0 : float_zero 0%float.
Proof. by exists false. Qed.

Lemma to_float_zero (x : np.number) : zero_number x → float_zero (np.to_float x).
Proof. destruct x as [z|f]; simpl; [intros ->; apply float_zero_0|done]. Qed.

Lemma num_add_zero (x y : np.number) :
  zero_number x → zero_number y → zero_number (np.num_add x y).
Proof.
  intros Hx Hy.
  destruct x as [a|a], y as [b|b]; simpl in *; subst; try done.
  all: apply add_zero_zero; (done || apply float_zero_0).
Qed.

Lemma label_product_zero (l p : np.number) :
  zero_number l → float_finite (np.to_float p) → zero_number (np.num_mul l p).
Proof.
  intros Hl Hp.
  destruct l as [a|a], p as [b|b]; simpl in *; subst; try done.
  all: apply mul_zero_l; (done || apply float_zero_0).
Qed.

Lemma fold_zero (g : nat → np.number) (l : list nat) (acc : np.number) :
  zero_number acc → (∀ i, i ∈ l → zero_number (g i)) →
  zero_number (fold_left (λ x i, np.num_add x (g i)) l acc).
Proof.
  revert acc. induction l as [|i l IH]; intros acc Hacc Hg; simpl; [done|].
  apply IH.
  - apply num_add_zero; [done|]. apply Hg. by left.
  - intros i' Hi'. apply Hg. by right.
Qed.

(** With zero labels and finite products the summed update is zero. *)
Lemma hebbian_sum_zero_labels (cands queries : list np.vector)
    (labels : list np.number) (j k : nat) :
  Forall zero_number labels →
  (∀ i, i < length labels →
     float_finite (np.to_float
       (np.num_mul (nth j (np.asarray (nth i cands [])) (np.I64 0))
                   (nth k (np.asarray (nth i queries [])) (np.I64 0))))) →
  zero_number (hebbian_sum cands queries labels j k).
Proof.
  intros Hz Hfin. unfold hebbian_sum.
  apply (fold_zero (λ i, np.num_mul (nth i labels (np.I64 0)) _)); [done|].
  intros i Hi%elem_of_seq. apply label_product_zero; [|apply Hfin; lia].
  apply (proj1 (Forall_forall _ _) Hz), list_elem_of_In, nth_In. lia.
Qed.

Lemma float_item (w : np.ndarray) (j k : nat) :
  float_matrix w → np.wf w → j < np.nrows w → k < np.ncols w →
  ∃ a, np.item w j k = np.F64 a.
Proof.
  intros Hf Hwf Hj Hk. unfold np.item.
  assert (Hrow : nth j (np.rows w) [] ∈ np.rows w) by (by apply list_elem_of_In, nth_In).
  pose proof (proj1 (Forall_forall _ _) Hf _ Hrow) as Hitems.
  assert (Hin : nth k (nth j (np.rows w) []) (np.I64 0) ∈ nth j (np.rows w) []).
  { apply list_elem_of_In, nth_In. by rewrite wf_row. }
  pose proof (proj1 (Forall_forall _ _) Hitems _ Hin) as Hint.
  destruct (nth k _ _) as [z|a]; [done|by exists a].
Qed.

(** C6 (amended): when N >= 1 and every label is 0, the weight matrix is a
    D x D float64 matrix, the candidates and queries hold int64 or float64
    numbers, the learning rate is a finite float64 and every product
    [c_i[j] * q_i[k]] is finite as a float64, the call succeeds where the file
    can be written, every entry of the matrix in memory afterwards is the
    number it was (the sign of a zero aside), and that matrix is still written
    to disk: it is what is stored for the key, and the last call in the log is
    the write. *)
Theorem feedback_zero_labels_persists (writable : string → bool)
    (cands queries : list np.vector) (labels : list np.number)
    (ra : option (list nat)) (lr : float) (s : state) (D : nat) :
  length cands = length labels → length queries = length labels →
  0 < length labels → Forall zero_number labels →
  Forall (λ c, length c = D) cands → Forall (λ c, length c = D) queries →
  np.wf (resolve s D) → np.shape (resolve s D) = (D, D) →
  Forall (λ c, np.numeric c = true) cands →
  Forall (λ c, np.numeric c = true) queries →
  float_matrix (resolve s D) → float_finite lr →
  (∀ i j k, i < length labels → j < D → k < D →
     float_finite (np.to_float
       (np.num_mul (nth j (np.asarray (nth i cands [])) (np.I64 0))
                   (nth k (np.asarray (nth i queries [])) (np.I64 0))))) →
  writable (_get_model_path (self s)) = true →
  ∃ w' s',
    feedback _login writable cands queries labels ra (np.F64 lr) s = (Ok tt, s') ∧
    np.shape w' = (D, D) ∧
    (∀ j k, j < D → k < D →
       same_number (np.item w' j k) (np.item (resolve s D) j k)) ∧
    W (self s') = Some w' ∧
    stored s' = Some w' ∧
    last (log s') = Some (Write (_get_model_path (self s))).
Proof.
  intros Hcl Hql HN Hz Hc Hq Hwf Hsh _ _ Hfl Hlr Hfin Hwr.
  destruct (feedback_entries writable cands queries labels ra (np.F64 lr) s D)
    as (w' & Hrun & Hwf' & Hsh' & Hit); try done.
  rewrite Hwr in Hrun.
  exists w', (persisted (after_resolve s D) w').
  split; [done|]. split; [done|]. split; [|apply persisted_written].
  intros j k Hj Hk. rewrite Hit by done.
  unfold np.shape in Hsh. injection Hsh as Hr Hcn.
  destruct (float_item (resolve s D) j k) as [a Ha]; [done|done|lia|lia|].
  rewrite Ha.
  pose proof (hebbian_sum_zero_labels cands queries labels j k Hz
                (λ i Hi, Hfin i j k Hi Hj Hk)) as Hzero.
  apply to_float_zero in Hzero.
  assert (Hupd : float_zero (lr * np.to_float (hebbian_sum cands queries labels j k))%float)
    by (by apply mul_zero_r).
  assert (Hmul : np.num_mul (np.F64 lr) (hebbian_sum cands queries labels j k)
                 = np.F64 (lr * np.to_float (hebbian_sum cands queries labels j k))%float)
    by (by destruct (hebbian_sum _ _ _ _ _)).
  rewrite Hmul. simpl.
  eexists _, a. split; [done|]. split; [done|].
  by apply add_zero_r.
Qed.

(** A run of C6 on two int64 rows with labels 0, 0 and rate 3.0. *)
Lemma feedback_zero_labels_persists_witness :
  ∃ w' s',
    feedback _login models_dir [ints [1; 2]; ints [3; 4]]%Z [ints [5; 6]; ints [7; 8]]%Z
             [np.I64 0; np.I64 0] None (np.F64 3) fresh = (Ok tt, s') ∧
    np.shape w' = (2, 2) ∧
    (∀ j k, j < 2 → k < 2 →
       same_number (np.item w' j k) (np.item (resolve fresh 2) j k)) ∧
    W (self s') = Some w' ∧
    stored s' = Some w' ∧
    last (log s') = Some (Write (_get_model_path (self fresh))).
Proof.
  apply (feedback_zero_labels_persists models_dir [ints [1; 2]; ints [3; 4]]%Z
           [ints [5; 6]; ints [7; 8]]%Z [np.I64 0; np.I64 0] None 3%float fresh 2).
  - reflexivity.
  - reflexivity.
  - simpl. lia.
  - repeat constructor.
  - repeat constructor.
  - repeat constructor.
  - vm_compute. repeat constructor.
  - vm_compute. reflexivity.
  - repeat constructor.
  - repeat constructor.
  - vm_compute. repeat constructor.
  - by vm_compute.
  - intros i j k Hi Hj Hk.
    do 2 (destruct i as [|i]; [do 2 (destruct j as [|j]; [do 2 (destruct k as [|k];
      [by vm_compute|]); simpl in *; lia|]); simpl in *; lia|]).
    simpl in *; lia.
  - vm_compute. reflexivity.
Defined.

(** C6 as stated fails: with the candidate [1e200], the query [1e200] and the
    label 0, the product overflows to infinity, 0 * inf is NaN, and the one
    entry of the matrix, 1.0 before the call, is NaN afterwards, in memory
    and on disk. *)
Lemma feedback_zero_label_nan_counterexample :
  let big := examples.floats [0x1.4e718d7d7625ap+664%float] in
  let out := feedback _login examples.models_dir [big] [big] [np.I64 0] None (np.F64 1)
                      examples.fresh in
  zero_number (np.I64 0) ∧
  out.1 = Ok tt ∧
  resolve examples.fresh 1 = np.mk_ndarray 1 [[np.F64 1]] ∧
  W (self out.2) = Some (np.mk_ndarray 1 [[np.F64 PrimFloat.nan]]) ∧
  stored out.2 = Some (np.mk_ndarray 1 [[np.F64 PrimFloat.nan]]) ∧
  ¬ same_number (np.F64 PrimFloat.nan) (np.F64 1).
Proof.
  split; [done|]. do 4 (split; [vm_compute; reflexivity|]).
  intros (a & b & [= <-] & [= <-] & [H|[[s H] _]]); by vm_compute in H.
Qed.

(** C5: feedback on empty candidate, query and label sequences returns at
    once: the ranker, the disk and the log of gate and file calls are what they
    were, so nothing was loaded or written and no file was created. *)
Theorem feedback_empty_noop (gate : FeedbackRanker → bool)
    (writable : string → bool) (ra : option (list nat))
    (lr : np.number) (s : state) :
  feedback gate writable [] [] [] ra lr s = (Ok tt, s).
Proof. done. Qed.

(** ** The gate and the files *)

Ltac not_in_log :=
  let Hin := fresh "Hin" in
  intros Hin;
  repeat (apply elem_of_cons in Hin as [Hin|Hin]; [discriminate|]);
  by apply elem_of_nil in Hin.

Lemma after_resolve_trace (s : state) (D : nat) :
  ∃ l, log (after_resolve s D) = log s ++ l ∧
       load_trace (_get_model_path (self s)) l ∧ (Login false ∉ l) ∧
       disk (after_resolve s D) = disk s ∧
       _get_model_path (self (after_resolve s D)) = _get_model_path (self s).
Proof.
  unfold after_resolve, load_events.
  destruct (W (self s)); [|destruct (stored s)]; simpl.
  - exists []. rewrite app_nil_r. repeat split; [constructor|not_in_log].
  - eexists. split; [done|]. repeat split; [constructor|not_in_log].
  - eexists. split; [done|]. repeat split; [constructor|not_in_log].
Qed.

Lemma gated_rank_unchanged (s : state) (r : result (list nat)) : gated_rank s (r, s).
Proof.
  exists []. simpl. rewrite app_nil_r. repeat split; [constructor|not_in_log].
Qed.

Lemma rank_gated (gate : FeedbackRanker → bool) (blas : np.blas)
    (argsort : list float → list nat)
    (cands : list np.vector) (q : np.vector) (s : state) :
  gated_rank s (rank gate blas argsort cands q s).
Proof.
  destruct (cands !! 0) as [t0|] eqn:H0.
  2:{ rewrite rank_no_candidates by done. apply gated_rank_unchanged. }
  destruct (decide (length q = length t0)) as [Hlen|Hlen].
  2:{ rewrite (rank_sizes_differ _ _ _ _ _ t0) by done. apply gated_rank_unchanged. }
  assert (Hrun : (W (self s) = None → gate (self s) = true) →
                 gated_rank s (rank gate blas argsort cands q s)).
  { intros Hg. rewrite (rank_run_gate _ _ _ _ _ _ t0) by done.
    destruct (after_resolve_trace s (length q)) as (l & Hl & Htr & Hno & Hd & _).
    exists l. done. }
  destruct (W (self s)) as [w|] eqn:HW; [|destruct (gate (self s)) eqn:Hg].
  - apply Hrun. congruence.
  - by apply Hrun.
  - rewrite (rank_refused _ _ _ _ _ _ t0) by done.
    exists [Login false]. simpl. repeat split; constructor.
Qed.

Lemma gated_feedback_unchanged (s : state) (r : result unit) : gated_feedback s (r, s).
Proof.
  exists [], []. simpl. rewrite app_nil_r.
  split; [done|]. split; [constructor|]. split; [constructor|].
  split; [not_in_log|]. split; [done|]. split; [not_in_log|done].
Qed.

Lemma feedback_gated (gate : FeedbackRanker → bool) (writable : string → bool)
    (cands queries : list np.vector) (labels : list np.number)
    (ra : option (list nat)) (lr : np.number) (s : state) :
  gated_feedback s (feedback gate writable cands queries labels ra lr s).
Proof.
  destruct (decide (length cands = 0 ∨ length queries = 0)) as [Hemp|Hemp].
  { unfold feedback. rewrite decide_True by done. apply gated_feedback_unchanged. }
  destruct queries as [|q0 queries']; [simpl in Hemp; tauto|].
  destruct cands as [|t0 cands']; [simpl in Hemp; tauto|].
  set (cands := t0 :: cands') in *. set (queries := q0 :: queries') in *.
  destruct (decide (length q0 = length t0)) as [Hlen|Hlen].
  2:{ rewrite (feedback_sizes_differ _ _ _ _ _ _ _ _ q0 t0) by done.
      apply gated_feedback_unchanged. }
  assert (Hrun : (W (self s) = None → gate (self s) = true) →
                 gated_feedback s (feedback gate writable cands queries labels ra lr s)).
  { intros Hg. rewrite (feedback_run_gate _ _ _ _ _ _ _ _ q0 t0) by done.
    destruct (after_resolve_trace s (length q0)) as (l & Hl & Htr & Hno & Hd & Hp).
    cbv zeta.
    destruct (_ ≫= _) as [w'|e];
      [destruct (gate (with_W _ _)); [destruct (writable _)|]|];
      unfold gated_feedback.
    - exists l, [Login true; Write (_get_model_path (self s))].
      unfold persisted. cbn [fst snd log disk self W with_W].
      rewrite Hl, Hp, Hd, <- app_assoc.
      split; [done|]. split; [done|]. split; [constructor|]. split; [|split].
      + intros [Hin|Hin]%elem_of_app; [done|]. revert Hin. not_in_log.
      + intros Hnot. exfalso. apply Hnot. do 2 constructor.
      + split; [intros _; by exists w'|done].
    - exists l, [Login true; WriteFailed (_get_model_path (self s))].
      unfold unwritten. cbn [fst snd log disk self W with_W].
      rewrite Hl, Hp, Hd, <- app_assoc.
      split; [done|]. split; [done|]. split; [constructor|]. split; [|split].
      + intros [Hin|Hin]%elem_of_app; [done|]. revert Hin. not_in_log.
      + done.
      + split; [not_in_log|done].
    - exists l, [Login false].
      unfold unsaved. cbn [fst snd log disk self W with_W].
      rewrite Hl, Hd, <- app_assoc.
      split; [done|]. split; [done|]. split; [constructor|]. split; [done|].
      split; [done|]. split; [not_in_log|done].
    - exists l, []. cbn [fst snd]. rewrite Hl, Hd, !app_nil_r.
      split; [done|]. split; [done|]. split; [constructor|]. split; [done|].
      split; [done|]. split; [not_in_log|done]. }
  destruct (W (self s)) as [w|] eqn:HW; [|destruct (gate (self s)) eqn:Hg].
  - apply Hrun. congruence.
  - by apply Hrun.
  - rewrite (feedback_refused _ _ _ _ _ _ _ _ q0 t0) by done.
    exists [Login false], []. simpl.
    split; [done|]. split; [constructor|]. split; [constructor|].
    split; [done|]. split; [done|]. split; [not_in_log|done].
Qed.

(** C7 (amended): the gate is not the first step of every operation, and [rank]
    on a cached matrix never calls it.  What holds for every gate: the gate
    and file calls an operation makes form a load trace ([rank]) or a load
    trace followed by a save trace ([feedback]), so each existence test, read
    and write comes right after a granted gate call of the same operation; a
    refused gate call ends the operation with the login exception, with no
    file call after it and the disk untouched. *)
Theorem gate_precedes_file_access (gate : FeedbackRanker → bool)
    (writable : string → bool) (blas : np.blas)
    (argsort : list float → list nat) (cands queries : list np.vector) (q : np.vector)
    (labels : list np.number) (ra : option (list nat)) (lr : np.number) (s : state) :
  gated_rank s (rank gate blas argsort cands q s) ∧
  gated_feedback s (feedback gate writable cands queries labels ra lr s).
Proof. split; [apply rank_gated|apply feedback_gated]. Qed.

(** C7 as stated fails.  After a first [rank] the matrix is in memory, and a
    second [rank] returns with the state, log included, as it found it: no gate
    call was made.  And with a gate that refuses everyone and the matrix in
    memory, [rank] returns a ranking instead of the login exception. *)
Lemma rank_cached_skips_gate_counterexample :
  let cands := [examples.ints [1%Z]] in
  let q := examples.ints [1%Z] in
  let s1 := (rank _login examples.blas_seq sorts.aquicksort cands q examples.fresh).2 in
  rank _login examples.blas_seq sorts.aquicksort cands q s1 = (Ok [0], s1) ∧
  rank examples.deny examples.blas_seq sorts.aquicksort cands q examples.cached
    = (Ok [0], examples.cached).
Proof. split; vm_compute; reflexivity. Qed.

(** C9 (amended): when a matrix is persisted for the key and the gate grants,
    [load_model] returns that matrix whatever dimension was requested; it
    records the requested dimension and keeps the matrix in memory.  No
    comparison of dimensions is made. *)
Theorem load_model_returns_persisted (gate : FeedbackRanker → bool) (D : nat)
    (s : state) (w : np.ndarray) :
  gate (self s) = true → stored s = Some w →
  load_model gate D s =
    (Ok w,
     mk_state (mk_ranker (user_id (self s)) (password (self s)) (session_id (self s))
                 (model_location (self s)) (Some D) (Some w))
              (disk s)
              (log s ++ [Login true; Exists (_get_model_path (self s));
                         Read (_get_model_path (self s))])).
Proof.
  intros Hg Hst. rewrite load_model_run by done. unfold stored in Hst.
  simpl. by rewrite Hst.
Qed.

(** A run of the amended C9: dimension 3 requested, a 2 x 2 matrix on disk. *)
Lemma load_model_returns_persisted_witness :
  load_model _login 3 with_file =
    (Ok (np.eye 2 2),
     mk_state (mk_ranker "user" "pw" "s1" "models/" (Some 3) (Some (np.eye 2 2)))
              (disk with_file)
              (log with_file ++ [Login true; Exists "models/user_s1";
                                 Read "models/user_s1"])).
Proof.
  apply (load_model_returns_persisted _login 3 with_file (np.eye 2 2)).
  - reflexivity.
  - vm_compute. reflexivity.
Defined.

(** C9 as stated fails: the persisted matrix is 2 x 2, dimension 3 is requested,
    and [load_model] returns the 2 x 2 matrix. *)
Lemma load_model_mismatch_counterexample :
  stored examples.with_file = Some (np.eye 2 2) ∧
  np.shape (np.eye 2 2) ≠ (3, 3) ∧
  (load_model _login 3 examples.with_file).1 = Ok (np.eye 2 2).
Proof.
  split; [vm_compute; reflexivity|]. split; [by vm_compute|vm_compute; reflexivity].
Qed.

(** ** Keys and paths *)





(** C8: the keys ("a_b", "c") and ("a", "b_c") differ, yet both map to the
    path "models/a_b_c": feedback under the first creates the matrix that the
    second, which had none, then finds persisted. *)
Theorem model_path_collision :
  let s1 := __init__ "a_b" "pw" "c" "models/" None ∅ [] in
  let out := feedback _login examples.models_dir [examples.ints [1; 0]%Z]
                      [examples.ints [0; 1]%Z] [np.I64 1] None (np.F64 1) s1 in
  let s2 := __init__ "a" "pw" "b_c" "models/" None (disk out.2) (log out.2) in
  ("a_b", "c") ≠ ("a", "b_c") ∧
  _get_model_path (self s1) = "models/a_b_c" ∧
  _get_model_path (self s2) = "models/a_b_c" ∧
  out.1 = Ok tt ∧
  stored (__init__ "a" "pw" "b_c" "models/" None ∅ []) = None ∧
  stored s2 = W (self out.2) ∧
  stored s2 ≠ None.
Proof.
  split; [done|]. split; [done|]. split; [done|].
  split; [vm_compute; reflexivity|]. split; [vm_compute; reflexivity|].
  split; [vm_compute; reflexivity|]. by vm_compute.
Qed.

(** * Further properties

    What the methods do beyond the statements above: what a returned ranking
    tells, how the matrix travels through the disk, and how [feedback] treats
    batches of uneven length. *)

(** ** Returned rankings *)

Lemma energy_ok_inv blas (w : np.ndarray) (q c : np.vector) (e : float) :
  energy blas w q c = Ok e → length c = np.ncols w ∧ length q = np.nrows w.
Proof.
  unfold energy, np.dot21, np.dot11.
  case_decide as Hc; simpl; [|done].
  case_decide as Hq; simpl; [|done].
  intros _. rewrite length_matvec in Hq. done.
Qed.

(** What a returned ranking tells about the call. *)
Lemma rank_ok_inv (gate : FeedbackRanker → bool) blas (argsort : list float → list nat)
    (cands : list np.vector) (q : np.vector) (s s' : state) (ranks : list nat) :
  rank gate blas argsort cands q s = (Ok ranks, s') →
  ∃ t0 es, cands !! 0 = Some t0 ∧ length q = length t0 ∧
           comprehension (energy blas (resolve s (length q)) q) cands = Ok es ∧
           ranks = argsort es ∧ s' = after_resolve s (length q).
Proof.
  intros Hrun.
  destruct (cands !! 0) as [t0|] eqn:H0.
  2:{ by rewrite rank_no_candidates in Hrun. }
  destruct (decide (length q = length t0)) as [Hlen|Hlen].
  2:{ by rewrite (rank_sizes_differ _ _ _ _ _ t0) in Hrun. }
  destruct (W (self s)) as [w|] eqn:HW; [|destruct (gate (self s)) eqn:Hg].
  - rewrite (rank_run_gate _ _ _ _ _ _ t0) in Hrun by (done || congruence).
    destruct (comprehension _ cands) as [es|] eqn:Hes; simpl in Hrun; [|done].
    injection Hrun as <- <-. by exists t0, es.
  - rewrite (rank_run_gate _ _ _ _ _ _ t0) in Hrun by done.
    destruct (comprehension _ cands) as [es|] eqn:Hes; simpl in Hrun; [|done].
    injection Hrun as <- <-. by exists t0, es.
  - rewrite (rank_refused _ _ _ _ _ _ t0) in Hrun by done. done.
Qed.

(** X1: a ranking that [rank] returns is a permutation of the indices
    0..N-1 of the candidates: it has N entries, none repeated, each below N.
    This holds for every gate, matrix and input, given only that [np.argsort]
    meets its contract. *)
Theorem rank_ok_permutation (gate : FeedbackRanker → bool)
    (blas : np.blas)
    (argsort : list float → list nat) (cands : list np.vector) (q : np.vector)
    (s s' : state) (ranks : list nat) :
  np.argsort_spec argsort →
  rank gate blas argsort cands q s = (Ok ranks, s') →
  ranks ≡ₚ seq 0 (length cands) ∧
  length ranks = length cands ∧ NoDup ranks ∧
  ∀ i, i ∈ ranks → i < length cands.
Proof.
  intros Hsort Hrun.
  apply rank_ok_inv in Hrun as (t0 & es & _ & _ & Hes & -> & _).
  apply comprehension_length in Hes.
  destruct (Hsort es) as [Hperm _]. rewrite Hes in Hperm.
  split; [done|]. split; [by rewrite Hperm, length_seq|].
  split; [rewrite Hperm; apply NoDup_seq|].
  intros i Hi. rewrite Hperm in Hi. apply elem_of_seq in Hi. lia.
Qed.

(** A run of X1 on three candidates of dimension 2. *)
Lemma rank_ok_permutation_witness :
  [1; 0; 2] ≡ₚ seq 0 (length [ints [1; 2]; ints [3; 4]; ints [0; 0]]%Z) ∧
  length [1; 0; 2] = length [ints [1; 2]; ints [3; 4]; ints [0; 0]]%Z ∧
  NoDup [1; 0; 2] ∧
  ∀ i, i ∈ [1; 0; 2] → i < length [ints [1; 2]; ints [3; 4]; ints [0; 0]]%Z.
Proof.
  apply (rank_ok_permutation _login blas_seq sorts.argsort_stable
           [ints [1; 2]; ints [3; 4]; ints [0; 0]]%Z (ints [1; 1]%Z) fresh
           (after_resolve fresh 2) [1; 0; 2]).
  - apply argsort_stable_spec.
  - vm_compute. reflexivity.
Defined.

(** X2: [rank] returns a ranking only when the shapes fit: every candidate
    is as long as the matrix in use is wide, and the query as long as it is
    high.  With a square matrix all candidates and the query share one
    length. *)
Theorem rank_ok_dimensions (gate : FeedbackRanker → bool)
    (blas : np.blas)
    (argsort : list float → list nat) (cands : list np.vector) (q : np.vector)
    (s s' : state) (ranks : list nat) :
  rank gate blas argsort cands q s = (Ok ranks, s') →
  Forall (λ c, length c = np.ncols (resolve s (length q))) cands ∧
  length q = np.nrows (resolve s (length q)) ∧
  (np.nrows (resolve s (length q)) = np.ncols (resolve s (length q)) →
   Forall (λ c, length c = length q) cands).
Proof.
  intros Hrun.
  apply rank_ok_inv in Hrun as (t0 & es & H0 & Hlen & Hes & _ & _).
  assert (Hall : ∀ c, c ∈ cands →
            length c = np.ncols (resolve s (length q)) ∧
            length q = np.nrows (resolve s (length q))).
  { intros c Hin. destruct (comprehension_ok_elem _ _ _ c Hes Hin) as [e He].
    by apply energy_ok_inv in He. }
  assert (Ht0 : t0 ∈ cands) by (apply list_elem_of_lookup; by exists 0).
  split; [apply Forall_forall; intros c Hin; by apply Hall|].
  split; [by apply (Hall t0)|].
  intros Hsq. apply Forall_forall. intros c Hin.
  destruct (Hall c Hin) as [Hc Hq]. congruence.
Qed.

(** A run of X2 on the same call. *)
Lemma rank_ok_dimensions_witness :
  let cands := [ints [1; 2]; ints [3; 4]; ints [0; 0]]%Z in
  let q := ints [1; 1]%Z in
  Forall (λ c, length c = np.ncols (resolve fresh (length q))) cands ∧
  length q = np.nrows (resolve fresh (length q)) ∧
  (np.nrows (resolve fresh (length q)) = np.ncols (resolve fresh (length q)) →
   Forall (λ c, length c = length q) cands).
Proof.
  apply (rank_ok_dimensions _login blas_seq sorts.argsort_stable
           [ints [1; 2]; ints [3; 4]; ints [0; 0]]%Z (ints [1; 1]%Z) fresh
           (after_resolve fresh 2) [1; 0; 2]).
  vm_compute. reflexivity.
Defined.

(** X3: [rank] is idempotent under the class's own gate: a second call with
    the same arguments returns what the first returned and leaves the state,
    log included, as the first left it, so it makes no gate or file call. *)
Theorem rank_twice (blas : np.blas)
    (argsort : list float → list nat) (cands : list np.vector)
    (q : np.vector) (s : state) :
  rank _login blas argsort cands q (rank _login blas argsort cands q s).2
  = rank _login blas argsort cands q s.
Proof.
  destruct (cands !! 0) as [t0|] eqn:H0.
  2:{ by rewrite !rank_no_candidates. }
  destruct (decide (length q = length t0)) as [Hlen|Hlen].
  2:{ by rewrite !(rank_sizes_differ _ _ _ _ _ t0). }
  rewrite (rank_run _ _ _ _ s t0) by done. simpl.
  rewrite (rank_run _ _ _ _ _ t0) by done.
  destruct (after_resolve_cached (after_resolve s (length q)) (length q)
              (resolve s (length q)) (resolve_after_resolve _ _)) as [-> ->].
  done.
Qed.

(** ** Through the disk and back *)

(** What a successful call on a non-empty batch tells. *)
Lemma feedback_ok_inv writable (cands queries : list np.vector)
    (labels : list np.number) ra lr (s s' : state) q0 t0 :
  queries !! 0 = Some q0 → cands !! 0 = Some t0 →
  feedback _login writable cands queries labels ra lr s = (Ok tt, s') →
  length q0 = length t0 ∧
  writable (_get_model_path (self s)) = true ∧
  ∃ w', s' = persisted (after_resolve s (length q0)) w'.
Proof.
  intros Hq0 Ht0 Hrun.
  destruct (decide (length q0 = length t0)) as [Hlen|Hlen].
  2:{ by rewrite (feedback_sizes_differ _ _ _ _ _ _ _ _ q0 t0) in Hrun. }
  split; [done|].
  rewrite (feedback_run _ _ _ _ _ _ _ q0 t0) in Hrun by done.
  destruct (_ ≫= _) as [w'|e]; [|done].
  destruct (writable _); [|done].
  injection Hrun as <-. split; [done|]. by exists w'.
Qed.

Lemma head_of_nonempty {A} (l : list A) : l ≠ [] → ∃ x, l !! 0 = Some x.
Proof. destruct l as [|x l]; [done|]. by exists x. Qed.

Lemma reopen_persisted (s : state) (w : np.ndarray) :
  W (self (reopen (persisted s w))) = None ∧
  stored (reopen (persisted s w)) = Some w.
Proof.
  split; [done|]. unfold stored, reopen, persisted, __init__. cbn [self disk].
  change (_get_model_path (mk_ranker _ _ _ _ None None))
    with (_get_model_path (self s)).
  apply lookup_insert_eq.
Qed.

(** X4: persistence round trip.  After a successful [feedback] on a non-empty
    batch, a new ranker for the same key and model directory finds on disk the
    matrix the first ranker holds in memory: [load_model], whatever dimension
    it is asked for, returns that matrix and keeps it in memory. *)
Theorem feedback_round_trip (writable : string → bool)
    (cands queries : list np.vector) (labels : list np.number)
    (ra : option (list nat)) (lr : np.number) (s s' : state) (d : nat) :
  cands ≠ [] → queries ≠ [] →
  feedback _login writable cands queries labels ra lr s = (Ok tt, s') →
  ∃ w, W (self s') = Some w ∧
       stored (reopen s') = Some w ∧
       (load_model _login d (reopen s')).1 = Ok w ∧
       W (self (load_model _login d (reopen s')).2) = Some w.
Proof.
  intros Hc Hq Hrun.
  destruct (head_of_nonempty _ Hc) as [t0 Ht0].
  destruct (head_of_nonempty _ Hq) as [q0 Hq0].
  destruct (feedback_ok_inv _ _ _ _ _ _ _ _ q0 t0 Hq0 Ht0 Hrun) as (_ & _ & w & ->).
  destruct (reopen_persisted (after_resolve s (length q0)) w) as [_ Hst].
  exists w. split; [done|]. split; [done|].
  rewrite load_model_run by done. unfold stored in Hst. cbn zeta.
  rewrite Hst. done.
Qed.

(** A run of X4: one row of feedback on a new ranker, then a load of
    dimension 5 by another new ranker. *)
Lemma feedback_round_trip_witness :
  let s' := (feedback _login models_dir [ints [1; 0]%Z] [ints [0; 1]%Z] [np.I64 1] None
                      (np.F64 1) fresh).2 in
  ∃ w, W (self s') = Some w ∧
       stored (reopen s') = Some w ∧
       (load_model _login 5 (reopen s')).1 = Ok w ∧
       W (self (load_model _login 5 (reopen s')).2) = Some w.
Proof.
  apply (feedback_round_trip models_dir [ints [1; 0]%Z] [ints [0; 1]%Z] [np.I64 1] None
           (np.F64 1) fresh
           (feedback _login models_dir [ints [1; 0]%Z] [ints [0; 1]%Z] [np.I64 1] None
                     (np.F64 1) fresh).2 5).
  - discriminate.
  - discriminate.
  - vm_compute. reflexivity.
Defined.

Lemma rank_reopen_persisted blas (argsort : list float → list nat) (s : state)
    (w : np.ndarray) (cands : list np.vector) (q : np.vector) :
  (rank _login blas argsort cands q (reopen (persisted s w))).1
  = (rank _login blas argsort cands q (persisted s w)).1.
Proof.
  destruct (cands !! 0) as [t0|] eqn:H0.
  2:{ by rewrite !rank_no_candidates. }
  destruct (decide (length q = length t0)) as [Hlen|Hlen].
  2:{ by rewrite !(rank_sizes_differ _ _ _ _ _ t0). }
  rewrite !(rank_run _ _ _ _ _ t0) by done. cbn [fst].
  destruct (reopen_persisted s w) as [HW Hst].
  unfold resolve at 1. rewrite HW, Hst.
  unfold resolve. done.
Qed.

(** X5: a new ranker for the same key ranks as the one that gave the
    feedback.  After a successful [feedback] on a non-empty batch, [rank] on a
    newly constructed ranker over the same disk returns, for every candidate
    list and query, what [rank] on the original ranker returns. *)
Theorem rank_after_reopen (writable : string → bool)
    (blas : np.blas) (argsort : list float → list nat)
    (cands queries : list np.vector) (labels : list np.number)
    (ra : option (list nat)) (lr : np.number) (s s' : state)
    (cands' : list np.vector) (q' : np.vector) :
  cands ≠ [] → queries ≠ [] →
  feedback _login writable cands queries labels ra lr s = (Ok tt, s') →
  (rank _login blas argsort cands' q' (reopen s')).1
  = (rank _login blas argsort cands' q' s').1.
Proof.
  intros Hc Hq Hrun.
  destruct (head_of_nonempty _ Hc) as [t0 Ht0].
  destruct (head_of_nonempty _ Hq) as [q0 Hq0].
  destruct (feedback_ok_inv _ _ _ _ _ _ _ _ q0 t0 Hq0 Ht0 Hrun) as (_ & _ & w & ->).
  apply rank_reopen_persisted.
Qed.

(** A run of X5: the ranking of two candidates after one row of feedback. *)
Lemma rank_after_reopen_witness :
  let s' := (feedback _login models_dir [ints [1; 0]%Z] [ints [0; 1]%Z] [np.I64 1] None
                      (np.F64 1) fresh).2 in
  (rank _login blas_seq sorts.argsort_stable [ints [1; 0]; ints [0; 1]]%Z (ints [1; 1]%Z)
        (reopen s')).1
  = (rank _login blas_seq sorts.argsort_stable [ints [1; 0]; ints [0; 1]]%Z
          (ints [1; 1]%Z) s').1.
Proof.
  apply (rank_after_reopen models_dir blas_seq sorts.argsort_stable
           [ints [1; 0]%Z] [ints [0; 1]%Z] [np.I64 1] None (np.F64 1) fresh
           (feedback _login models_dir [ints [1; 0]%Z] [ints [0; 1]%Z] [np.I64 1] None
                     (np.F64 1) fresh).2
           [ints [1; 0]; ints [0; 1]]%Z (ints [1; 1]%Z)).
  - discriminate.
  - discriminate.
  - vm_compute. reflexivity.
Defined.

(** X6: the module-level functions share the model through the disk.
    After a successful module-level [feedback] on a non-empty batch, a
    module-level [rank] for the same user, session and directory, which builds
    a ranker of its own, returns what [rank] would on the ranker that
    [feedback] built. *)
Theorem api_feedback_then_rank (writable : string → bool)
    (blas : np.blas) (argsort : list float → list nat)
    (user session pw pw' location : string)
    (cands queries : list np.vector) (labels : list np.number)
    (ra : option (list nat))
    (d : gmap string np.ndarray) (l : list event) (s' : state)
    (cands' : list np.vector) (q' : np.vector) :
  cands ≠ [] → queries ≠ [] →
  api.feedback writable user pw session cands queries labels ra location d l
    = (Ok tt, s') →
  (api.rank blas argsort user pw' session cands' q' location (disk s') (log s')).1
  = (rank _login blas argsort cands' q' s').1.
Proof.
  intros Hc Hq Hrun. unfold api.feedback in Hrun. cbv zeta in Hrun.
  destruct (head_of_nonempty _ Hc) as [t0 Ht0].
  destruct (head_of_nonempty _ Hq) as [q0 Hq0].
  destruct (feedback_ok_inv _ _ _ _ _ _ _ _ q0 t0 Hq0 Ht0 Hrun) as (_ & _ & w & ->).
  rewrite <- rank_reopen_persisted. unfold api.rank. cbv zeta.
  destruct (cands' !! 0) as [t0'|] eqn:H0.
  2:{ by rewrite !rank_no_candidates. }
  destruct (decide (length q' = length t0')) as [Hlen|Hlen].
  2:{ by rewrite !(rank_sizes_differ _ _ _ _ _ t0'). }
  rewrite !(rank_run _ _ _ _ _ t0') by done. done.
Qed.

(** A run of X6 with the module-level functions over an empty directory. *)
Lemma api_feedback_then_rank_witness :
  let s' := (api.feedback models_dir "user" "pw" "s1" [ints [1; 0]%Z] [ints [0; 1]%Z]
                          [np.I64 1] None "models/" ∅ []).2 in
  (api.rank blas_seq sorts.argsort_stable "user" "other" "s1"
            [ints [1; 0]; ints [0; 1]]%Z (ints [1; 1]%Z) "models/" (disk s') (log s')).1
  = (rank _login blas_seq sorts.argsort_stable [ints [1; 0]; ints [0; 1]]%Z
          (ints [1; 1]%Z) s').1.
Proof.
  apply (api_feedback_then_rank models_dir blas_seq sorts.argsort_stable
           "user" "s1" "pw" "other" "models/"
           [ints [1; 0]%Z] [ints [0; 1]%Z] [np.I64 1] None ∅ []
           (api.feedback models_dir "user" "pw" "s1" [ints [1; 0]%Z] [ints [0; 1]%Z]
                         [np.I64 1] None "models/" ∅ []).2
           [ints [1; 0]; ints [0; 1]]%Z (ints [1; 1]%Z)).
  - discriminate.
  - discriminate.
  - vm_compute. reflexivity.
Defined.

(** X7: the first load for a key with no file yields the identity matrix of
    the requested dimension: shape (d, d), ones on the diagonal and zeros
    elsewhere.  It is kept in memory with the dimension recorded, and no file
    is created. *)
Theorem load_model_unseen_key (gate : FeedbackRanker → bool) (d : nat) (s : state) :
  gate (self s) = true → stored s = None →
  ∃ w s',
    load_model gate d s = (Ok w, s') ∧
    np.wf w ∧ np.shape w = (d, d) ∧
    (∀ i j, i < d → j < d →
       np.item w i j = if decide (i = j) then np.F64 1 else np.F64 0) ∧
    W (self s') = Some w ∧ dimension (self s') = Some d ∧
    disk s' = disk s ∧ stored s' = None.
Proof.
  intros Hg Hst. rewrite load_model_run by done. unfold stored in Hst.
  cbn zeta. rewrite Hst.
  eexists _, _. split; [done|].
  split; [apply wf_tabulate|]. split; [apply shape_tabulate|].
  split; [intros i j Hi Hj; by apply item_tabulate|].
  done.
Qed.

(** A run of X7: the first load of dimension 2 over an empty directory. *)
Lemma load_model_unseen_key_witness :
  ∃ w s',
    load_model _login 2 fresh = (Ok w, s') ∧
    np.wf w ∧ np.shape w = (2, 2) ∧
    (∀ i j, i < 2 → j < 2 →
       np.item w i j = if decide (i = j) then np.F64 1 else np.F64 0) ∧
    W (self s') = Some w ∧ dimension (self s') = Some 2 ∧
    disk s' = disk fresh ∧ stored s' = None.
Proof.
  apply (load_model_unseen_key _login 2 fresh).
  - reflexivity.
  - reflexivity.
Defined.

(** X8: what [save_model] does.  It succeeds exactly when the gate grants,
    a matrix is in memory and the file can be opened for writing, and then
    that matrix is what is stored for the key; otherwise the disk is as it
    was: without a matrix the exception is the one asking to run rank or
    feedback first, raised after the gate call, and a refused [open] ends the
    call with its OSError.  Files of other paths and the ranker itself are
    never touched. *)
Theorem save_model_effect (gate : FeedbackRanker → bool) (writable : string → bool)
    (s : state) :
  let out := save_model gate writable s in
  let path := _get_model_path (self s) in
  (out.1 = Ok tt ↔
     gate (self s) = true ∧ is_Some (W (self s)) ∧ writable path = true) ∧
  (out.1 = Ok tt → stored out.2 = W (self s)) ∧
  (out.1 ≠ Ok tt → disk out.2 = disk s) ∧
  (gate (self s) = true → W (self s) = None →
     out.1 = Err (Exception nomodel_msg)) ∧
  (gate (self s) = true → is_Some (W (self s)) → writable path = false →
     out.1 = Err OSError) ∧
  (∀ path', path' ≠ path → disk out.2 !! path' = disk s !! path') ∧
  self out.2 = self s.
Proof.
  cbv zeta. destruct (W (self s)) as [w|] eqn:HW.
  - rewrite (save_model_run gate writable s w HW).
    destruct (gate (self s)); [destruct (writable _)|]; cbn.
    + split; [split; [eauto|done]|]. split; [intros _; apply lookup_insert_eq|].
      split; [done|]. split; [done|]. split; [done|].
      split; [|done]. intros path Hne. by rewrite lookup_insert_ne.
    + split; [split; [done|intros (_ & _ & ?); done]|]. done.
    + split; [split; [done|intros [? _]; done]|]. done.
  - rewrite (save_model_no_model gate writable s HW). destruct (gate (self s)); cbn.
    + split; [split; [done|intros (_ & [? ?] & _); done]|].
      split; [done|]. split; [done|]. split; [done|].
      split; [intros _ [? ?]; done|done].
    + split; [split; [done|intros [? _]; done]|]. done.
Qed.

(** X9: a refused save leaves the update in memory only.  With the matrix
    cached and a gate that refuses, [feedback] on a batch that the class's
    own gate would have accepted raises the login exception and leaves the
    disk untouched, yet the ranker already holds the updated matrix, the one
    the accepted call would have written. *)
Theorem feedback_refused_save (gate : FeedbackRanker → bool)
    (writable : string → bool)
    (cands queries : list np.vector) (labels : list np.number)
    (ra : option (list nat)) (lr : np.number) (s s' : state) (w : np.ndarray) :
  cands ≠ [] → queries ≠ [] →
  W (self s) = Some w → (∀ r, gate r = false) →
  feedback _login writable cands queries labels ra lr s = (Ok tt, s') →
  feedback gate writable cands queries labels ra lr s
  = (Err (Exception login_msg),
     mk_state (self s') (disk s) (log s ++ [Login false])).
Proof.
  intros Hc Hq HW Hg Hrun.
  destruct (head_of_nonempty _ Hc) as [t0 Ht0].
  destruct (head_of_nonempty _ Hq) as [q0 Hq0].
  destruct (feedback_ok_inv _ _ _ _ _ _ _ _ q0 t0 Hq0 Ht0 Hrun)
    as (Hlen & Hwr & w' & ->).
  rewrite (feedback_run _ _ _ _ _ _ _ q0 t0) in Hrun by done.
  rewrite (feedback_run_gate _ _ _ _ _ _ _ _ q0 t0) by (done || congruence).
  cbv zeta. destruct (_ ≫= _) as [w''|e]; [|done].
  rewrite Hwr in Hrun.
  apply (f_equal (λ out, W (self out.2))) in Hrun. simpl in Hrun.
  injection Hrun as ->. rewrite Hg.
  destruct (after_resolve_cached s (length q0) w HW) as [-> _].
  done.
Qed.

(** A run of X9 with the gate that refuses everyone on a cached 1 x 1 matrix. *)
Lemma feedback_refused_save_witness :
  let s' := (feedback _login models_dir [ints [2]%Z] [ints [3]%Z] [np.I64 1] None
                      (np.F64 1) cached).2 in
  feedback deny models_dir [ints [2]%Z] [ints [3]%Z] [np.I64 1] None (np.F64 1) cached
  = (Err (Exception login_msg),
     mk_state (self s') (disk cached) (log cached ++ [Login false])).
Proof.
  apply (feedback_refused_save deny models_dir [ints [2]%Z] [ints [3]%Z] [np.I64 1] None
           (np.F64 1) cached
           (feedback _login models_dir [ints [2]%Z] [ints [3]%Z] [np.I64 1] None
                     (np.F64 1) cached).2
           (np.eye 1 1)).
  - discriminate.
  - discriminate.
  - reflexivity.
  - reflexivity.
  - vm_compute. reflexivity.
Defined.

(** ** Batches of uneven length *)

(** X14: rows without labels.  With candidates and queries but an empty
    label array, [feedback] sums nothing, adds the learning rate times the
    integer 0 to the matrix and still saves.  For a float64 matrix and a
    finite float64 rate, where the file can be written, the call succeeds,
    every entry of the matrix in memory afterwards is the number it was (the
    sign of a zero aside), and that matrix is what is stored for the key,
    which for a key without a file creates the file. *)
Theorem feedback_without_labels (writable : string → bool)
    (cands queries : list np.vector)
    (ra : option (list nat)) (lr : float) (s : state) (q0 t0 : np.vector) :
  queries !! 0 = Some q0 → cands !! 0 = Some t0 → length q0 = length t0 →
  np.wf (resolve s (length q0)) → float_matrix (resolve s (length q0)) →
  float_finite lr →
  writable (_get_model_path (self s)) = true →
  ∃ w',
    feedback _login writable cands queries [] ra (np.F64 lr) s
      = (Ok tt, persisted (after_resolve s (length q0)) w') ∧
    np.shape w' = np.shape (resolve s (length q0)) ∧
    (∀ j k, j < np.nrows w' → k < np.ncols w' →
       same_number (np.item w' j k) (np.item (resolve s (length q0)) j k)) ∧
    stored (persisted (after_resolve s (length q0)) w') = Some w'.
Proof.
  intros Hq0 Ht0 Hlen Hwf Hfl Hlr Hwr.
  rewrite (feedback_run _ _ _ _ _ _ _ q0 t0) by done.
  unfold outer_products, np.py_sum. simpl. rewrite Hwr.
  eexists. split; [done|]. split; [apply shape_map_items|].
  split; [|apply persisted_written].
  intros j k Hj Hk.
  pose proof (shape_map_items
                (λ x, np.num_add x (np.num_mul (np.F64 lr) (np.I64 0)))
                (resolve s (length q0))) as Hsh.
  unfold np.shape in Hsh. injection Hsh as Hr.
  rewrite Hr in Hj. change (k < np.ncols (resolve s (length q0))) in Hk.
  rewrite item_map_items by (done || by rewrite wf_row).
  destruct (float_item (resolve s (length q0)) j k) as [a Ha]; try done.
  rewrite Ha. simpl. change (np.float_of_int 0) with 0%float.
  eexists _, a. split; [done|]. split; [done|].
  apply add_zero_r, mul_zero_r; [done|apply float_zero_0].
Qed.

(** A run of X14: one candidate, one query, no label. *)
Lemma feedback_without_labels_witness :
  let D := length (ints [0; 1]%Z) in
  ∃ w',
    feedback _login models_dir [ints [1; 0]%Z] [ints [0; 1]%Z] [] None (np.F64 1) fresh
      = (Ok tt, persisted (after_resolve fresh D) w') ∧
    np.shape w' = np.shape (resolve fresh D) ∧
    (∀ j k, j < np.nrows w' → k < np.ncols w' →
       same_number (np.item w' j k) (np.item (resolve fresh D) j k)) ∧
    stored (persisted (after_resolve fresh D) w') = Some w'.
Proof.
  apply (feedback_without_labels models_dir [ints [1; 0]%Z] [ints [0; 1]%Z] None 1%float
           fresh (ints [0; 1]%Z) (ints [1; 0]%Z)).
  - reflexivity.
  - reflexivity.
  - reflexivity.
  - vm_compute. repeat constructor.
  - vm_compute. repeat constructor.
  - by vm_compute.
  - vm_compute. reflexivity.
Defined.

Lemma outer_products_take (cands queries : list np.vector) (labels : list np.number)
    (n : nat) :
  n ≤ length labels →
  map (λ i, l ← index labels i; t ← index cands i; q ← index queries i;
            Ok (np.scale l (np.outer t q))) (seq 0 n)
  = outer_products cands queries (take n labels).
Proof.
  intros Hn. unfold outer_products. rewrite length_take, Nat.min_l by done.
  apply map_ext_in. intros i Hi%in_seq. unfold index.
  by rewrite lookup_take_lt by lia.
Qed.

Lemma py_sum_from_app (acc : np.pyval) (g1 g2 : list (result np.ndarray)) :
  np.py_sum_from acc (g1 ++ g2)
  = acc' ← np.py_sum_from acc g1; np.py_sum_from acc' g2.
Proof.
  revert acc. induction g1 as [|it g1 IH]; intros acc; simpl; [done|].
  destruct it as [M|e]; simpl; [|done].
  destruct (np.py_add_arr acc M); simpl; [|done]. apply IH.
Qed.

(** X15: more labels than rows.  When the label array is longer than the
    candidate and query arrays, [feedback] fails with the IndexError of
    [target_vector_array[i]] once the rows run out: the matrix has been
    resolved but nothing is added to it and nothing is written. *)
Theorem feedback_excess_labels (writable : string → bool)
    (cands queries : list np.vector) (labels : list np.number)
    (ra : option (list nat)) (lr : np.number) (s : state) (D : nat) :
  length queries = length cands → 0 < length cands →
  length cands < length labels →
  Forall (λ c, length c = D) cands → Forall (λ c, length c = D) queries →
  feedback _login writable cands queries labels ra lr s
  = (Err IndexError, after_resolve s D).
Proof.
  intros Hql HN Hlt Hc Hq.
  destruct (head_length_D cands D) as (t0 & Ht0 & HtD); [lia|done|].
  destruct (head_length_D queries D) as (q0 & Hq0 & HqD); [lia|done|].
  rewrite (feedback_run _ _ _ _ _ _ _ q0 t0) by (done || congruence).
  rewrite HqD.
  set (n := length cands) in *.
  assert (Hsplit : outer_products cands queries labels
    = outer_products cands queries (take n labels)
      ++ Err IndexError :: map (λ i, l ← index labels i; t ← index cands i;
                                     q ← index queries i;
                                     Ok (np.scale l (np.outer t q)))
                               (seq (S n) (length labels - S n))).
  { unfold outer_products at 1.
    replace (length labels) with (n + S (length labels - S n)) at 1 by lia.
    rewrite seq_app, map_app. simpl.
    rewrite (outer_products_take cands queries labels n) by lia. do 2 f_equal.
    destruct (nth_lookup_or_length labels n (np.I64 0)) as [Hl|Hl]; [|lia].
    rewrite (index_Some _ _ _ Hl). simpl.
    rewrite (index_None cands n); [done|]. apply lookup_ge_None_2. unfold n. lia. }
  rewrite Hsplit. unfold np.py_sum. rewrite py_sum_from_app.
  fold (np.py_sum (outer_products cands queries (take n labels))).
  destruct (py_sum_outer_products cands queries (take n labels) D)
    as (S & -> & _); try done.
  - rewrite length_take. unfold n. lia.
  - rewrite length_take. unfold n. lia.
  - rewrite length_take. unfold n. lia.
Qed.

(** A run of X15: one row, two labels. *)
Lemma feedback_excess_labels_witness :
  feedback _login models_dir [ints [1; 0]%Z] [ints [0; 1]%Z] [np.I64 1; np.I64 1] None
           (np.F64 1) fresh
  = (Err IndexError, after_resolve fresh 2).
Proof.
  apply (feedback_excess_labels models_dir [ints [1; 0]%Z] [ints [0; 1]%Z]
           [np.I64 1; np.I64 1] None (np.F64 1) fresh 2).
  - reflexivity.
  - simpl. lia.
  - simpl. lia.
  - repeat constructor.
  - repeat constructor.
Defined.

Lemma outer_products_ignore_rows (cands queries : list np.vector)
    (labels : list np.number) :
  length labels ≤ length cands → length labels ≤ length queries →
  outer_products (take (length labels) cands) (take (length labels) queries) labels
  = outer_products cands queries labels.
Proof.
  intros Hc Hq. unfold outer_products. apply map_ext_in. intros i Hi%in_seq.
  unfold index. by rewrite !lookup_take_lt by lia.
Qed.

(** X16: rows beyond the labels are ignored.  [feedback] walks
    [range(len(feedback_array))], so with fewer labels than rows (but at least
    one) the call does exactly what it does on the first [len(feedback_array)]
    candidates and queries. *)
Theorem feedback_ignores_extra_rows (writable : string → bool)
    (cands queries : list np.vector)
    (labels : list np.number) (ra : option (list nat)) (lr : np.number) (s : state) :
  0 < length labels →
  length labels ≤ length cands → length labels ≤ length queries →
  feedback _login writable (take (length labels) cands) (take (length labels) queries)
           labels ra lr s
  = feedback _login writable cands queries labels ra lr s.
Proof.
  intros HN Hc Hq.
  destruct cands as [|t0 cands']; [simpl in Hc; lia|].
  destruct queries as [|q0 queries']; [simpl in Hq; lia|].
  destruct (length labels) as [|n] eqn:HL; [lia|].
  destruct (decide (length q0 = length t0)) as [Hlen|Hlen].
  - rewrite (feedback_run _ (take (S n) (t0 :: cands')) _ _ _ _ _ q0 t0) by done.
    rewrite (feedback_run _ (t0 :: cands') _ _ _ _ _ q0 t0) by done.
    rewrite <- HL, outer_products_ignore_rows by (rewrite HL; done). done.
  - rewrite (feedback_sizes_differ _ _ (take (S n) (t0 :: cands')) _ _ _ _ _ q0 t0)
      by done.
    by rewrite (feedback_sizes_differ _ _ (t0 :: cands') _ _ _ _ _ q0 t0).
Qed.

(** A run of X16: two rows, one label. *)
Lemma feedback_ignores_extra_rows_witness :
  let cands := [ints [1; 0]; ints [5; 5]]%Z in
  let queries := [ints [0; 1]; ints [7; 7]]%Z in
  feedback _login models_dir (take (length [np.I64 1]) cands)
           (take (length [np.I64 1]) queries) [np.I64 1] None (np.F64 1) fresh
  = feedback _login models_dir cands queries [np.I64 1] None (np.F64 1) fresh.
Proof.
  apply (feedback_ignores_extra_rows models_dir [ints [1; 0]; ints [5; 5]]%Z
           [ints [0; 1]; ints [7; 7]]%Z [np.I64 1] None (np.F64 1) fresh).
  - simpl. lia.
  - simpl. lia.
  - simpl. lia.
Defined.

(** ** Other sessions *)



